(** * MORE liquidation bot: a shallow embedding of the liquidation targeting
      and execution engine, and the properties of its specification.

    Sources embedded here:
    - [index.js]            the deployed scan-and-liquidate cycle ([main]);
    - [unnamed/part_000]    the close-factor variant of the cycle
                            ([calculateDebtToCover], [selectBestCollateralAsset],
                            the reserve-configuration decoders and its [main]);
    - [router-quotes.js]    the swap route aggregator ([RouterQuoteManager]).

    Amounts are ethers [BigNumber]s: arbitrary-precision integers, modelled
    as [Z].  Addresses are strings.  Remote reads are fields of an explicit
    environment record, returning [None] when the call fails. *)

From Stdlib Require Import ZArith Lia Ascii String List Sorted Permutation.
From stdpp Require Import base decidable option list strings gmap.

Local Open Scope Z_scope.

(* ================================================================== *)
(** * Part I: the embedding *)
(* ================================================================== *)

(** ** JavaScript completions

    An [async] function either fulfils with a value or rejects with an
    error.  [try { c } catch (e) { h }] is [try_catch c h]. *)

Inductive exn : Type :=
| TypeError (msg : string)      (* property access on null / undefined, or
                                   a call of what is not a function *)
| CallException (msg : string)  (* a remote read reverted or failed *)
| NumericFault (msg : string)   (* BigNumber division by zero *)
| Error (msg : string).         (* [throw new Error(msg)]; the ABI coder's
                                   invalid-argument error *)

Inductive completion (A : Type) : Type :=
| Return (a : A)
| Throw (e : exn).

Arguments Return {A} a.
Arguments Throw {A} e.

Global Instance completion_ret : MRet completion := @Return.
Global Instance completion_bind : MBind completion :=
  fun A B k c =>
    match c with
    | Return a => k a
    | Throw e => Throw e
    end.

Global Instance completion_fmap : FMap completion :=
  fun A B f c =>
    match c with
    | Return a => Return (f a)
    | Throw e => Throw e
    end.

Definition try_catch {A : Type} (c : completion A) (handler : exn -> completion A)
  : completion A :=
  match c with
  | Return a => Return a
  | Throw e => handler e
  end.

(** [await contract.method(...)]: a failed remote read rejects. *)
Definition await {A : Type} (what : string) (r : option A) : completion A :=
  match r with
  | Some a => Return a
  | None => Throw (CallException what)
  end.

(** ** ethers [BigNumber] and [constants] *)

Module BigNumber.
Definition from (z : Z) : Z := z.
Definition mul (a b : Z) : Z := a * b.
(** [div] truncates toward zero; it is used below with non-zero literal
    divisors.  [div_checked] is the same operation where the divisor is
    data: ethers throws on a zero divisor. *)
Definition div (a b : Z) : Z := Z.quot a b.
Definition div_checked (a b : Z) : completion Z :=
  if decide (b = 0) then Throw (NumericFault "division-by-zero")
  else Return (Z.quot a b).
(** [pow] throws on a negative exponent. *)
Definition pow (a b : Z) : completion Z :=
  if decide (b < 0) then Throw (NumericFault "negative-power")
  else Return (a ^ b).
Definition shr (a : Z) (n : Z) : Z := Z.shiftr a n.
Definition and (a b : Z) : Z := Z.land a b.
Definition eq (a b : Z) : bool := bool_decide (a = b).
Definition lt (a b : Z) : bool := bool_decide (a < b).
Definition lte (a b : Z) : bool := bool_decide (a <= b).
Definition gt (a b : Z) : bool := bool_decide (a > b).
Definition gte (a b : Z) : bool := bool_decide (a >= b).
(** [BigNumber.min(a, b)].  The sources take [utils], [constants],
    [providers] and [BigNumber] from the root of the ethers package,
    which is the interface of ethers version 5; its [BigNumber] class has
    the static members [from] and [isBigNumber] and no [min].  The
    expression [BigNumber.min] is therefore [undefined], and calling it
    throws a TypeError whatever the arguments are. *)
Definition min (a b : Z) : completion Z :=
  Throw (TypeError "BigNumber.min is not a function").
End BigNumber.

Module constants.
Definition WeiPerEther : Z := 10 ^ 18.
Definition MaxUint256 : Z := 2 ^ 256 - 1.
End constants.

(** ** Liquidation sizing engine ([unnamed/part_000], lines 441-468, 803-816) *)

(** [utils.parseEther('0.95')] *)
Definition CLOSE_FACTOR_HF_THRESHOLD : Z := 950000000000000000.
Definition DEFAULT_LIQUIDATION_CLOSE_FACTOR : Z := 5000.
Definition MAX_LIQUIDATION_CLOSE_FACTOR : Z := 10000.

(** The [closeFactor] local of [calculateDebtToCover]. *)
Definition closeFactor (healthFactor : Z) : Z :=
  if BigNumber.lt healthFactor CLOSE_FACTOR_HF_THRESHOLD
  then MAX_LIQUIDATION_CLOSE_FACTOR
  else DEFAULT_LIQUIDATION_CLOSE_FACTOR.

Definition calculateDebtToCover (healthFactor userDebtBalance : Z) : Z :=
  let closeFactor := closeFactor healthFactor in
  let maxDebtToCover :=
    BigNumber.div (BigNumber.mul userDebtBalance closeFactor) 10000 in
  maxDebtToCover.

(** The two values the sizing step of [main] hands to the liquidation
    parameters: [amount: checkedBal] and [debtToCover: cover]. *)
Record Sizing : Type := {
  checkedBal : Z;
  cover : Z
}.

(** [main], lines 803-816 of [unnamed/part_000].  The step ends at the
    call of [BigNumber.min] (line 808); the lines after it are kept as
    they are written. *)
Definition sizeDebtToCover
    (healthFactor userDebtBalance debtBalanceInmToken : Z) : completion Sizing :=
  let maxDebtToCoverByCloseFactor :=
    calculateDebtToCover healthFactor userDebtBalance in
  checkedBal ←
    BigNumber.min maxDebtToCoverByCloseFactor debtBalanceInmToken;
  let cover :=
    if BigNumber.eq checkedBal maxDebtToCoverByCloseFactor
    then constants.MaxUint256
    else checkedBal in
  Return {| checkedBal := checkedBal; cover := cover |}.

(** [main], lines 283-290 of [index.js] (the same lines are 197-205 of the
    first program in [unnamed/part_000]): this variant has no close-factor
    rule, the whole debt balance is the uncapped amount. *)
Definition sizeDebtToCover_index
    (increasedDebtBal debtBalanceInmToken : Z) : Sizing :=
  let checkedBal :=
    if BigNumber.gt increasedDebtBal debtBalanceInmToken
    then debtBalanceInmToken
    else increasedDebtBal in
  let cover :=
    if BigNumber.gt increasedDebtBal debtBalanceInmToken
    then debtBalanceInmToken
    else constants.MaxUint256 in
  {| checkedBal := checkedBal; cover := cover |}.

(** ** [Array.prototype] helpers

    [for (let ii = 0; ii < n; ii++) body]: the body is run for each index
    in order and an exception leaves the loop. *)
Definition for_loop {S : Type} (n : nat) (body : nat -> S -> completion S)
    (init : S) : completion S :=
  foldl (fun acc ii => st ← acc; body ii st) (Return init) (seq 0 n).

(** [arr.sort(cmp)]: a stable sort, the comparator's sign decides.  The
    head of the array comes before every element of its tail, so it is
    placed in front of the elements it compares equal to. *)
Fixpoint sort_insert {A : Type} (cmp : A -> A -> Z) (x : A) (l : list A)
  : list A :=
  match l with
  | [] => [x]
  | y :: l' =>
      if decide (cmp x y <= 0) then x :: y :: l'
      else y :: sort_insert cmp x l'
  end.

Definition array_sort {A : Type} (cmp : A -> A -> Z) (l : list A) : list A :=
  foldr (sort_insert cmp) [] l.

(** [String.prototype.toLowerCase] on the ASCII range. *)
Definition ascii_toLowerCase (c : ascii) : ascii :=
  let n := nat_of_ascii c in
  if decide (65 <= n <= 90)%nat then ascii_of_nat (n + 32) else c.

Fixpoint toLowerCase (s : string) : string :=
  match s with
  | EmptyString => EmptyString
  | String c s' => String (ascii_toLowerCase c) (toLowerCase s')
  end.

(** ** Health scanner ([index.js], lines 121-140) *)

Record HealthRecord : Type := {
  pool : string;
  user : string;
  healthFactor : Z
}.

Definition unhealthyUsers (allUsersHealthRes : list HealthRecord)
  : list HealthRecord :=
  List.filter
    (fun userHealth =>
       BigNumber.lte (healthFactor userHealth) constants.WeiPerEther
       && BigNumber.gt (healthFactor userHealth) 0)
    allUsersHealthRes.

Definition compareHealthAscending (a b : HealthRecord) : Z :=
  if BigNumber.lt (healthFactor a) (healthFactor b) then -1
  else if BigNumber.gt (healthFactor a) (healthFactor b) then 1
  else 0.

Definition wideUnhealthyUsers (allUsersHealthRes : list HealthRecord)
  : list HealthRecord :=
  array_sort compareHealthAscending
    (List.filter
       (fun userHealth =>
          BigNumber.lt (healthFactor userHealth)
            (BigNumber.div (BigNumber.mul constants.WeiPerEther 105) 100)
          && BigNumber.gte (healthFactor userHealth) constants.WeiPerEther)
       allUsersHealthRes).

Definition zeroHealthUsers (allUsersHealthRes : list HealthRecord)
  : list HealthRecord :=
  List.filter
    (fun userHealth => BigNumber.eq (healthFactor userHealth) 0)
    allUsersHealthRes.

(** ** Position resolver ([index.js], lines 226-266; the same loop is at
    lines 139-178 and 731-771 of [unnamed/part_000]) *)

(** A decoded multicall result: [decodeFunctionResult] is applied with
    ["balanceOf"] at even positions and ["UNDERLYING_ASSET_ADDRESS"] at odd
    ones, so [tokenInfos] alternates the two shapes. *)
Inductive Info : Type :=
| InfoBalance (balance : Z)
| InfoUnderlying (underlying : string).

Section Decode.
(** The raw return data of one call and the ABI decoder of ethers. *)
Context {raw : Type}.
Variable decode_balanceOf : raw -> completion Z.
Variable decode_UNDERLYING_ASSET_ADDRESS : raw -> completion string.

Fixpoint decodeTokenInfos (ind : nat) (returnData : list raw)
  : completion (list Info) :=
  match returnData with
  | [] => Return []
  | tokenRes :: rest =>
      info ← (if decide (ind mod 2 = 0)%nat
              then InfoBalance <$> decode_balanceOf tokenRes
              else InfoUnderlying <$> decode_UNDERLYING_ASSET_ADDRESS tokenRes);
      infos ← decodeTokenInfos (S ind) rest;
      Return (info :: infos)
  end.
End Decode.

(** A holding: [token] is the underlying asset ([token[0]] in the source,
    the single component of the decoded result), [amount] the balance. *)
Record Holding : Type := {
  token : string;
  amount : Z
}.

(** An entry of [tokensWithUnderlying]: lower-cased underlying asset and
    the collateral wrapper that holds it. *)
Record UnderlyingEntry : Type := {
  underlyingToken : string;
  mtoken : string
}.

Record Position : Type := {
  mInfos : list Holding;
  dInfos : list Holding;
  tokensWithUnderlying : list UnderlyingEntry
}.

Definition emptyPosition : Position :=
  {| mInfos := []; dInfos := []; tokensWithUnderlying := [] |}.

(** [arr.findIndex(pred)]: [None] stands for the result [-1]. *)
Definition findIndex {A : Type} (pred : A -> bool) (arr : list A) : option nat :=
  fst <$> list_find (fun x => pred x = true) arr.

(** [arr.find(pred)]: [None] stands for [undefined]. *)
Definition find {A : Type} (pred : A -> bool) (arr : list A) : option A :=
  snd <$> list_find (fun x => pred x = true) arr.

Definition string_eqb (a b : string) : bool := bool_decide (a = b).

Section Resolver.
(** [botInfo.mTokens] and the decoded [tokenInfos]. *)
Variable mTokens : list string.
Variable tokenInfos : list Info.

(** The body of the loop at index [ii].  Reading a balance where an
    address was decoded, or past the end of [tokenInfos], is a
    [TypeError] in the source. *)
Definition resolveStep (ii : nat) (st : Position) : completion Position :=
  let selInd := (ii mod 2)%nat in
  if decide (selInd = 0%nat) then
    match tokenInfos !! ii with
    | Some (InfoBalance detailedInfo) =>
        if BigNumber.gt detailedInfo 0 then
          match tokenInfos !! (ii + 1)%nat with
          | Some (InfoUnderlying underlying) =>
              let holding :=
                {| token := underlying;
                   amount := BigNumber.from detailedInfo |} in
              if decide (ii < length mTokens * 2)%nat then
                Return {| mInfos := mInfos st ++ [holding];
                          dInfos := dInfos st;
                          tokensWithUnderlying := tokensWithUnderlying st |}
              else
                Return {| mInfos := mInfos st;
                          dInfos := dInfos st ++ [holding];
                          tokensWithUnderlying := tokensWithUnderlying st |}
          | _ => Throw (TypeError "tokenInfos[ii + 1]")
          end
        else Return st
    | _ => Throw (TypeError "tokenInfos[ii].info[0].gt")
    end
  else if decide (ii < length mTokens * 2)%nat then
    match tokenInfos !! ii with
    | Some (InfoUnderlying underlying) =>
        let detailedInfo := toLowerCase underlying in
        match findIndex
                (fun tokenItem => string_eqb (underlyingToken tokenItem) detailedInfo)
                (tokensWithUnderlying st) with
        | None =>
            (* [ii < mTokens.length * 2] keeps [Math.floor(ii / 2)] in range *)
            Return {| mInfos := mInfos st;
                      dInfos := dInfos st;
                      tokensWithUnderlying :=
                        tokensWithUnderlying st ++
                        [{| underlyingToken := detailedInfo;
                            mtoken := default EmptyString (mTokens !! (ii / 2)%nat) |}] |}
        | Some _ => Return st
        end
    | _ => Throw (TypeError "tokenInfos[ii].info[0].toLowerCase")
    end
  else Return st.

Definition resolvePosition : completion Position :=
  for_loop (length tokenInfos) resolveStep emptyPosition.
End Resolver.

(** ** Remote reads

    Every field is one contract read; [None] means the call failed
    (reverted, timed out, no such contract). *)
Record Chain : Type := {
  (** [pool.ADDRESSES_PROVIDER()] *)
  pool_ADDRESSES_PROVIDER : string -> option string;
  (** [addressesProvider.getPriceOracle()] *)
  provider_getPriceOracle : string -> option string;
  (** [priceOracle.getAssetPrice(asset)] *)
  oracle_getAssetPrice : string -> string -> option Z;
  (** [token.decimals()] *)
  erc20_decimals : string -> option Z;
  (** [pool.getReserveData(asset).configuration.data] *)
  pool_getReserveData : string -> string -> option Z;
  (** [token.balanceOf(holder)] *)
  erc20_balanceOf : string -> string -> option Z
}.

(** ** Reserve configuration ([unnamed/part_000], lines 355-439) *)

Definition extractLiquidationBonus (configurationData : Z) : Z :=
  let data := BigNumber.from configurationData in
  let liquidationBonus := BigNumber.and (BigNumber.shr data 32) 65535 in
  liquidationBonus.

Definition extractUsageAsCollateralEnabled (configurationData : Z) : bool :=
  let data := BigNumber.from configurationData in
  let usageAsCollateralEnabled := BigNumber.and (BigNumber.shr data 56) 1 in
  BigNumber.eq usageAsCollateralEnabled 1.

Record ReserveConfig : Type := {
  rc_liquidationBonus : Z;
  rc_usageAsCollateralEnabled : bool
}.

Section Selector.
Variable chain : Chain.

(** Returns [None] for [null]. *)
Definition getPriceOracleAddress (poolAddress : string)
  : completion (option string) :=
  try_catch
    (addressesProviderAddress ←
       await "ADDRESSES_PROVIDER" (pool_ADDRESSES_PROVIDER chain poolAddress);
     priceOracleAddress ←
       await "getPriceOracle" (provider_getPriceOracle chain addressesProviderAddress);
     Return (Some priceOracleAddress))
    (fun error => Return None).

Definition getAssetPrice (assetAddress poolAddress : string) : completion Z :=
  try_catch
    (priceOracleAddress ← getPriceOracleAddress poolAddress;
     match priceOracleAddress with
     | None => Throw (Error "Could not get price oracle address")
     | Some priceOracleAddress =>
         price ← await "getAssetPrice"
                   (oracle_getAssetPrice chain priceOracleAddress assetAddress);
         Return price
     end)
    (fun error => Return (BigNumber.from 0)).

Definition getTokenDecimals (tokenAddress : string) : completion Z :=
  try_catch
    (decimals ← await "decimals" (erc20_decimals chain tokenAddress);
     Return decimals)
    (fun error => Return 18).

Definition getReserveConfiguration (poolAddress assetAddress : string)
  : completion ReserveConfig :=
  try_catch
    (configurationData ←
       await "getReserveData" (pool_getReserveData chain poolAddress assetAddress);
     let liquidationBonus := extractLiquidationBonus configurationData in
     let usageAsCollateralEnabled :=
       extractUsageAsCollateralEnabled configurationData in
     Return {| rc_liquidationBonus := liquidationBonus;
               rc_usageAsCollateralEnabled := usageAsCollateralEnabled |})
    (fun error =>
       Return {| rc_liquidationBonus := BigNumber.from 0;
                 rc_usageAsCollateralEnabled := false |}).

(** ** Collateral selector ([unnamed/part_000], lines 470-549) *)

Record CollateralCandidate : Type := {
  address : string;
  balance : Z;
  price : Z;
  decimals : Z;
  valueUSD : Z;
  liquidationBonus : Z;
  usageAsCollateralEnabled : bool
}.

Definition oracleDecimals : Z := 8.

(** The body of the [try] block for one holding.  [None] is the
    [continue] of an asset that is not enabled as collateral. *)
Definition evaluateCollateral (poolAddress : string) (mInfo : Holding)
  : completion (option CollateralCandidate) :=
  let assetAddress := token mInfo in
  let assetBalance := amount mInfo in
  reserveConfig ← getReserveConfiguration poolAddress assetAddress;
  if negb (rc_usageAsCollateralEnabled reserveConfig) then Return None
  else
    assetPrice ← getAssetPrice assetAddress poolAddress;
    assetDecimals ← getTokenDecimals assetAddress;
    tokenUnit ← BigNumber.pow (BigNumber.from 10) assetDecimals;
    inTokenUnits ←
      BigNumber.div_checked (BigNumber.mul assetPrice assetBalance) tokenUnit;
    oracleUnit ← BigNumber.pow (BigNumber.from 10) oracleDecimals;
    assetValueUSD ← BigNumber.div_checked inTokenUnits oracleUnit;
    Return (Some {| address := assetAddress;
                    balance := assetBalance;
                    price := assetPrice;
                    decimals := assetDecimals;
                    valueUSD := assetValueUSD;
                    liquidationBonus := rc_liquidationBonus reserveConfig;
                    usageAsCollateralEnabled :=
                      rc_usageAsCollateralEnabled reserveConfig |}).

(** The [for (const mInfo of mInfos)] loop: an error while evaluating
    one asset is caught and the loop continues. *)
Definition collateralCandidates (poolAddress : string) (mInfos : list Holding)
  : completion (list CollateralCandidate) :=
  foldl
    (fun acc mInfo =>
       collateralCandidates ← acc;
       try_catch
         (candidate ← evaluateCollateral poolAddress mInfo;
          match candidate with
          | Some c => Return (collateralCandidates ++ [c])
          | None => Return collateralCandidates
          end)
         (fun error => Return collateralCandidates))
    (Return []) mInfos.

Definition compareValueDescending (a b : CollateralCandidate) : Z :=
  if BigNumber.gt (valueUSD a) (valueUSD b) then -1
  else if BigNumber.lt (valueUSD a) (valueUSD b) then 1
  else 0.

(** Returns [None] for [null]. *)
Definition selectBestCollateralAsset (poolAddress : string)
    (mInfos : list Holding) : completion (option CollateralCandidate) :=
  collateralCandidates ← collateralCandidates poolAddress mInfos;
  if decide (length collateralCandidates = 0%nat) then Return None
  else
    let sorted := array_sort compareValueDescending collateralCandidates in
    match sorted !! 0%nat with
    | Some bestCollateral => Return (Some bestCollateral)
    | None => Throw (TypeError "bestCollateral.address")
    end.
End Selector.

(** ** Swap route aggregator ([router-quotes.js]) *)

Inductive SwapType : Type := UNISWAP_V2 | UNISWAP_V3 | AGRO_KITTY.

(** The [path] field, kept symbolic: the ABI encoding of an address array
    or the packed (address, uint24, address) of a v3 pool. *)
Inductive EncodedPath : Type :=
| AbiAddressArray (path : list string)
| SolidityPackV3 (tokenIn : string) (fee : Z) (tokenOut : string).

(** The object a venue adapter returns.  [amountOut] is [None] when the
    object has no such property. *)
Record SwapQuote : Type := {
  swapType : SwapType;
  router : string;
  path : EncodedPath;
  amountIn : Z;
  amountOut : option Z;
  amountOutMin : Z;
  adapters : list string
}.

(** What an adapter call evaluates to: [null], [undefined] (the function
    ran off its end) or a quote object. *)
Inductive QuoteResult : Type :=
| QNull
| QUndefined
| QQuote (quote : SwapQuote).

Definition isNull (q : QuoteResult) : bool :=
  match q with QNull => true | _ => false end.

Definition isUndefined (q : QuoteResult) : bool :=
  match q with QUndefined => true | _ => false end.

(** [config.contracts] *)
Record Contracts : Type := {
  punch_router : string;
  trado_router : string;
  trado_quoter : string;
  agrokitty_router : string;
  wflow : string
}.

(** [findBestPath]'s [FormattedOffer]. *)
Record FormattedOffer : Type := {
  offer_amounts : list Z;
  offer_adapters : list string;
  offer_path : list string;
  offer_gasEstimate : Z
}.

(** The three venues' read calls; [None] when the call fails: it
    reverts, or ethers cannot encode its arguments (a token string that
    is not an address). *)
Record Venues : Type := {
  v2Router_getAmountsOut : Z -> list string -> option (list Z);
  v3Quoter_quoteExactInput : EncodedPath -> Z -> option Z;
  agroKittyRouter_findBestPath : Z -> string -> string -> Z -> option FormattedOffer
}.

(** [arr.sort(cmp)] with a comparator that may throw; [undefined]
    elements go last and are never passed to the comparator. *)
Fixpoint sort_insertM {A : Type} (cmp : A -> A -> completion Z) (x : A)
    (l : list A) : completion (list A) :=
  match l with
  | [] => Return [x]
  | y :: l' =>
      c ← cmp x y;
      if decide (c <= 0) then Return (x :: y :: l')
      else (rest ← sort_insertM cmp x l'; Return (y :: rest))
  end.

Fixpoint array_sortM {A : Type} (cmp : A -> A -> completion Z) (l : list A)
  : completion (list A) :=
  match l with
  | [] => Return []
  | x :: l' => sorted ← array_sortM cmp l'; sort_insertM cmp x sorted
  end.

Section RouterQuoteManager.
Variable venues : Venues.
Variable contracts : Contracts.

(** Whether ethers' [getAddress] accepts a string: 40 hexadecimal digits,
    with or without the 0x prefix, in a single case or with a valid
    checksum, or an ICAN address.  The check is library code (the
    checksum is a keccak256 digest), so it is a parameter here. *)
Variable isAddress : string -> bool.

(** [utils.defaultAbiCoder.encode(["address[]"], [path])]: the coder
    passes every entry through [getAddress] and throws an
    invalid-argument error on a string that is not an address. *)
Definition encodeAddressArray (path : list string) : completion EncodedPath :=
  if forallb isAddress path then Return (AbiAddressArray path)
  else Throw (Error "invalid address").

Definition getV2Quote (tokenIn tokenOut : string) (amountIn : Z)
  : completion QuoteResult :=
  try_catch
    (let path := [tokenIn; tokenOut] in
     (* Method 1: getAmountsOut *)
     method1 ←
       try_catch
         (amounts ← await "getAmountsOut"
                      (v2Router_getAmountsOut venues amountIn path);
          if decide (1 < length amounts)%nat then
            match last amounts with
            | Some amountOut =>
                encoded ← encodeAddressArray path;
                Return (Some
                  {| swapType := UNISWAP_V2;
                     router := punch_router contracts;
                     path := encoded;
                     amountIn := amountIn;
                     amountOut := Some amountOut;
                     amountOutMin :=
                       BigNumber.div (BigNumber.mul amountOut 995) 1000;
                     adapters := [] |})
            | None => Throw (TypeError "amountOut.mul")
            end
          else Return None)
         (fun quoteError => Return None);
     match method1 with
     | Some quote => Return (QQuote quote)
     | None =>
         (* Method 2: conservative estimate *)
         let estimatedOut := BigNumber.div (BigNumber.mul amountIn 987) 1000 in
         encoded ← encodeAddressArray path;
         Return (QQuote
           {| swapType := UNISWAP_V2;
              router := punch_router contracts;
              path := encoded;
              amountIn := amountIn;
              amountOut := Some estimatedOut;
              amountOutMin :=
                BigNumber.div (BigNumber.mul estimatedOut 995) 1000;
              adapters := [] |})
     end)
    (fun error => Return QNull).

Definition feeTiers : list Z := [100; 500; 3000; 10000].

(** The running best of the fee-tier loop. *)
Record V3Best : Type := {
  bestAmountOut : Z;
  bestFee : Z;
  bestPath : option EncodedPath
}.

(** One round of the fee-tier loop.  Packing the path and the quoter call
    sit in the same [try]: a failure of either skips the tier. *)
Definition tryFeeTier (tokenIn tokenOut : string) (amountIn : Z)
    (best : V3Best) (fee : Z) : completion V3Best :=
  try_catch
    (let path := SolidityPackV3 tokenIn fee tokenOut in
     amountOut ← await "quoteExactInput"
                    (v3Quoter_quoteExactInput venues path amountIn);
     if BigNumber.gt amountOut (bestAmountOut best)
     then Return {| bestAmountOut := amountOut;
                    bestFee := fee;
                    bestPath := Some path |}
     else Return best)
    (fun feeError => Return best).

Definition getV3Quote (tokenIn tokenOut : string) (amountIn : Z)
  : completion QuoteResult :=
  try_catch
    (best ← foldl
              (fun acc fee => best ← acc; tryFeeTier tokenIn tokenOut amountIn best fee)
              (Return {| bestAmountOut := BigNumber.from 0;
                         bestFee := 3000;
                         bestPath := None |})
              feeTiers;
     match bestPath best with
     | Some path =>
         if BigNumber.gt (bestAmountOut best) 0 then
           Return (QQuote
             {| swapType := UNISWAP_V3;
                router := trado_router contracts;
                path := path;
                amountIn := amountIn;
                amountOut := Some (bestAmountOut best);
                amountOutMin :=
                  BigNumber.div (BigNumber.mul (bestAmountOut best) 995) 1000;
                adapters := [] |})
         else Return QNull
     | None => Return QNull
     end)
    (fun error => Return QNull).

(** Nothing is returned when the offer carries no positive output or
    when [findBestPath] fails: the function then runs off its end.  The
    path that is encoded is the address array of the decoded offer, whose
    entries the ABI decoder produced as addresses. *)
Definition getAgroKittyQuote (tokenIn tokenOut : string) (amountIn : Z)
    (adapters : list string) : completion QuoteResult :=
  try_catch
    (try_catch
       (let maxSteps := 4 in
        formattedOffer ←
          await "findBestPath"
            (agroKittyRouter_findBestPath venues amountIn tokenIn tokenOut maxSteps);
        let amounts := offer_amounts formattedOffer in
        let amountOut := last amounts in
        let bestPath := offer_path formattedOffer in
        let bestAdapters := offer_adapters formattedOffer in
        match amountOut with
        | Some amountOut =>
            if BigNumber.gt amountOut 0 then
              Return (QQuote
                {| swapType := AGRO_KITTY;
                   router := agrokitty_router contracts;
                   path := AbiAddressArray bestPath;
                   amountIn := amountIn;
                   amountOut := None;
                   amountOutMin :=
                     BigNumber.div (BigNumber.mul amountOut 990) 1000;
                   adapters := bestAdapters |})
            else Return QUndefined
        | None => Return QUndefined
        end)
       (fun quoteError => Return QUndefined))
    (fun error => Return QNull).

(** [a.amountOut.gt(b.amountOut)] needs both properties. *)
Definition compareAmountOutDescending (a b : QuoteResult) : completion Z :=
  match a, b with
  | QQuote qa, QQuote qb =>
      match amountOut qa, amountOut qb with
      | Some oa, Some ob =>
          if BigNumber.gt oa ob then Return (-1)
          else if BigNumber.lt oa ob then Return 1
          else Return 0
      | _, _ => Throw (TypeError "amountOut.gt")
      end
  | _, _ => Throw (TypeError "amountOut")
  end.

(** The logging of the quotes that lost, run when there are several. *)
Definition logComparison (bestQuote : SwapQuote) (quote : QuoteResult)
  : completion unit :=
  match quote with
  | QQuote q =>
      let improvement := amountOutMin bestQuote - amountOutMin q in
      _ ← BigNumber.div_checked (BigNumber.mul improvement 10000) (amountOutMin q);
      Return ()
  | _ => Throw (TypeError "quote.amountOutMin")
  end.

(** [getBestQuote] from the point where the adapters' answers are in:
    [quotes] is the array the source filters, [[agroKittyQuote]]. *)
Definition selectBestQuote (quotes : list QuoteResult) : completion QuoteResult :=
  let validQuotes := List.filter (fun quote => negb (isNull quote)) quotes in
  if decide (length validQuotes = 0%nat) then Return QNull
  else
    sorted ← array_sortM compareAmountOutDescending
               (List.filter (fun q => negb (isUndefined q)) validQuotes);
    let validQuotes := sorted ++ List.filter isUndefined validQuotes in
    match validQuotes !! 0%nat with
    | Some (QQuote bestQuote) =>
        _ ← (if decide (1 < length validQuotes)%nat
             then foldl (fun acc quote => _ ← acc; logComparison bestQuote quote)
                    (Return ()) (drop 1 validQuotes)
             else Return ());
        Return (QQuote bestQuote)
    | _ => Throw (TypeError "bestQuote.amountOutMin")
    end.

(** Only the AgroKitty adapter is called; the v2 and v3 calls are
    commented out in the source. *)
Definition getBestQuote (tokenIn tokenOut : string) (amountIn : Z)
  : completion QuoteResult :=
  agroKittyQuote ← getAgroKittyQuote tokenIn tokenOut amountIn [];
  selectBestQuote [agroKittyQuote].

(** The default parameter object of one leg: v2 router, direct path,
    no minimum output.  Building it encodes the path. *)
Definition defaultSwapParams (tokenIn tokenOut : string) (amountIn : Z)
  : completion SwapQuote :=
  encoded ← encodeAddressArray [tokenIn; tokenOut];
  Return {| swapType := UNISWAP_V2;
            router := punch_router contracts;
            path := encoded;
            amountIn := amountIn;
            amountOut := None;
            amountOutMin := 0;
            adapters := [] |}.

Record LiquidationSwapParams : Type := {
  sParamsToRepayLoan : SwapQuote;
  sParamsToSendToReceiver : SwapQuote
}.

(** [q ? q.amountOutMin : BigNumber.from(0)] and [q || fallback]:
    [null] and [undefined] are falsy. *)
Definition amountOutMinOrZero (q : QuoteResult) : Z :=
  match q with
  | QQuote quote => amountOutMin quote
  | _ => BigNumber.from 0
  end.

(** The fallback object literal is evaluated only when [q] is falsy. *)
Definition quoteOr (q : QuoteResult) (fallback : completion SwapQuote)
  : completion SwapQuote :=
  match q with
  | QQuote quote => Return quote
  | _ => fallback
  end.

Definition getLiquidationSwapParams
    (collateralAsset debtAsset : string) (collateralAmount : Z)
    (wflowAddress : string) : completion LiquidationSwapParams :=
  try_catch
    (repayQuote ← getBestQuote collateralAsset debtAsset collateralAmount;
     let debtAmountForReceiver := amountOutMinOrZero repayQuote in
     receiverQuote ←
       (if string_eqb (toLowerCase debtAsset) (toLowerCase wflowAddress) then
          encoded ← encodeAddressArray [debtAsset; wflowAddress];
          Return (QQuote
            {| swapType := UNISWAP_V2;
               router := punch_router contracts;
               path := encoded;
               amountIn := debtAmountForReceiver;
               amountOut := None;
               amountOutMin := debtAmountForReceiver;
               adapters := [] |})
        else if BigNumber.gt debtAmountForReceiver 0 then
          getBestQuote debtAsset wflowAddress debtAmountForReceiver
        else Return QNull);
     sParamsToRepayLoan ←
       quoteOr repayQuote
         (defaultSwapParams collateralAsset debtAsset collateralAmount);
     sParamsToSendToReceiver ←
       quoteOr receiverQuote
         (defaultSwapParams debtAsset wflowAddress debtAmountForReceiver);
     Return {| sParamsToRepayLoan := sParamsToRepayLoan;
               sParamsToSendToReceiver := sParamsToSendToReceiver |})
    (* the handler builds its two objects, and so encodes both paths,
       outside any [try] *)
    (fun error =>
       sParamsToRepayLoan ←
         defaultSwapParams collateralAsset debtAsset collateralAmount;
       sParamsToSendToReceiver ← defaultSwapParams debtAsset wflowAddress 0;
       Return {| sParamsToRepayLoan := sParamsToRepayLoan;
                 sParamsToSendToReceiver := sParamsToSendToReceiver |}).
End RouterQuoteManager.

(** ** Execution: the per-borrower part of [main] *)

(** [lParam] *)
Record LiquidationParams : Type := {
  lp_collateralAsset : string;
  lp_debtAsset : string;
  lp_user : string;
  lp_amount : Z;
  lp_transferAmount : Z;
  lp_debtToCover : Z
}.

(** How the work on one borrower ends. *)
Inductive Outcome : Type :=
| Submitted (lParam : LiquidationParams)
    (* [index.js]: [botContract.execute(lParam, sParam)] was sent *)
| Assembled (lParam : LiquidationParams) (swapParams : LiquidationSwapParams)
    (* [unnamed/part_000]: the parameters were built; the [execute] call
       is commented out there *)
| NoSuitableCollateral   (* [continue] after [selectBestCollateralAsset] *)
| Unexpected             (* no wrapper holds the debt asset *)
| NoCollateralOrDebt.

Definition findDebtMToken (debtAsset : string)
    (tokensWithUnderlying : list UnderlyingEntry) : option UnderlyingEntry :=
  find (fun uToken => string_eqb (underlyingToken uToken) (toLowerCase debtAsset))
    tokensWithUnderlying.

(** [index.js], lines 268-357.  A failure of [execute] is caught and
    reported; a failure of [balanceOf] is not caught. *)
Definition liquidate_index (chain : Chain) (unhealthyUser : HealthRecord)
    (st : Position) : completion Outcome :=
  match mInfos st, dInfos st with
  | m0 :: _, d0 :: _ =>
      let collateralAsset := token m0 in
      let debtAsset := token d0 in
      match findDebtMToken debtAsset (tokensWithUnderlying st) with
      | Some debtMToken =>
          debtBalanceInmToken ←
            await "balanceOf" (erc20_balanceOf chain debtAsset (mtoken debtMToken));
          let increasedDebtBal := amount d0 in
          let sizing := sizeDebtToCover_index increasedDebtBal debtBalanceInmToken in
          let lParam :=
            {| lp_collateralAsset := collateralAsset;
               lp_debtAsset := debtAsset;
               lp_user := user unhealthyUser;
               lp_amount := checkedBal sizing;
               lp_transferAmount := 0;
               lp_debtToCover := cover sizing |} in
          Return (Submitted lParam)
      | None => Return Unexpected
      end
  | _, _ => Return NoCollateralOrDebt
  end.

(** [unnamed/part_000], lines 775-975.  Nothing between the liquidity
    read and the end of the step is inside a [try]: an error of the
    sizing, of the collateral formula or of the quoting leaves [main]. *)
Definition liquidate (chain : Chain) (venues : Venues) (contracts : Contracts)
    (isAddress : string -> bool)
    (unhealthyUser : HealthRecord) (st : Position) : completion Outcome :=
  match mInfos st, dInfos st with
  | _ :: _, d0 :: _ =>
      bestCollateral ← selectBestCollateralAsset chain (pool unhealthyUser) (mInfos st);
      match bestCollateral with
      | None => Return NoSuitableCollateral
      | Some bestCollateral =>
          let collateralAsset := address bestCollateral in
          let debtAsset := token d0 in
          match findDebtMToken debtAsset (tokensWithUnderlying st) with
          | Some debtMToken =>
              debtBalanceInmToken ←
                await "balanceOf" (erc20_balanceOf chain debtAsset (mtoken debtMToken));
              let userDebtBalance := amount d0 in
              sizing ←
                sizeDebtToCover (healthFactor unhealthyUser) userDebtBalance
                  debtBalanceInmToken;
              let liquidationBonus := liquidationBonus bestCollateral in
              let collateralPrice := price bestCollateral in
              let collateralDecimals := decimals bestCollateral in
              debtAssetPrice ← getAssetPrice chain debtAsset (pool unhealthyUser);
              debtDecimals ← getTokenDecimals chain debtAsset;
              let debtToCover :=
                if BigNumber.eq (cover sizing) constants.MaxUint256
                then checkedBal sizing else cover sizing in
              byPrice ←
                BigNumber.div_checked
                  (BigNumber.mul (BigNumber.mul debtAssetPrice debtToCover)
                     liquidationBonus)
                  collateralPrice;
              collateralUnit ← BigNumber.pow (BigNumber.from 10) collateralDecimals;
              debtUnit ← BigNumber.pow (BigNumber.from 10) debtDecimals;
              maxAmountOfCollateralToLiquidate ←
                BigNumber.div_checked
                  (BigNumber.mul (BigNumber.div byPrice 10000) collateralUnit)
                  debtUnit;
              swapParams ←
                getLiquidationSwapParams venues contracts isAddress
                  collateralAsset debtAsset
                  maxAmountOfCollateralToLiquidate (wflow contracts);
              let lParam :=
                {| lp_collateralAsset := collateralAsset;
                   lp_debtAsset := debtAsset;
                   lp_user := user unhealthyUser;
                   lp_amount := checkedBal sizing;
                   lp_transferAmount := 0;
                   lp_debtToCover := cover sizing |} in
              Return (Assembled lParam swapParams)
          | None => Return Unexpected
          end
      end
  | _, _ => Return NoCollateralOrDebt
  end.

(** ** Definitions used to state the properties *)

(** The spec's close-factor rule, in its own words: 100% below 0.95,
    50% otherwise. *)
Definition spec_closeFactorBps (h : Z) : Z :=
  if decide (h < 95 * 10 ^ 16) then 10000 else 5000.

(** The keys of the underlying index. *)
Definition indexKeys (st : Position) : list string :=
  underlyingToken <$> tokensWithUnderlying st.

(** The decoded list alternates balances and underlying addresses, one
    pair per wrapper: this is what [decodeTokenInfos] yields on the
    answer to the interleaved request list. *)
Definition wellFormedInfos (tokenInfos : list Info) : Prop :=
  forall ii, (ii < length tokenInfos)%nat ->
    if decide (ii mod 2 = 0)%nat
    then (exists b, tokenInfos !! ii = Some (InfoBalance b)) /\
         (exists u, tokenInfos !! (ii + 1)%nat = Some (InfoUnderlying u))
    else exists u, tokenInfos !! ii = Some (InfoUnderlying u).

(** The invariant of the decode loop after [n] iterations. *)
Definition resolverInvariant (mTokens : list string) (tokenInfos : list Info)
    (n : nat) (st : Position) : Prop :=
  Forall (fun h => 0 < amount h) (mInfos st) /\
  Forall (fun h => 0 < amount h) (dInfos st) /\
  NoDup (indexKeys st) /\
  (forall ii u, (ii < n)%nat -> (ii mod 2 <> 0)%nat ->
                (ii < length mTokens * 2)%nat ->
                tokenInfos !! ii = Some (InfoUnderlying u) ->
                toLowerCase u ∈ indexKeys st).

(** The three reads behind the oracle price, chained; [None] when any of
    them fails. *)
Definition oraclePriceRead (chain : Chain) (poolAddress assetAddress : string)
  : option Z :=
  provider ← pool_ADDRESSES_PROVIDER chain poolAddress;
  oracle ← provider_getPriceOracle chain provider;
  oracle_getAssetPrice chain oracle assetAddress.

(** What one holding adds to the candidate list. *)
Definition candidateOf (chain : Chain) (poolAddress : string) (mInfo : Holding)
  : option CollateralCandidate :=
  match evaluateCollateral chain poolAddress mInfo with
  | Return (Some c) => Some c
  | _ => None
  end.

(** The output the v2 adapter quotes: the last amount when the venue
    answers with at least two, the estimate amountIn * 987 / 1000 when
    the call fails or answers with fewer. *)
Definition v2QuotedOutput (venues : Venues) (tokenIn tokenOut : string)
    (amountIn : Z) : Z :=
  match v2Router_getAmountsOut venues amountIn [tokenIn; tokenOut] with
  | Some (first :: second :: rest) =>
      default (Z.quot (amountIn * 987) 1000) (last (first :: second :: rest))
  | _ => Z.quot (amountIn * 987) 1000
  end.

(** The default parameter object of one leg, its path encoded. *)
Definition defaultLeg (contracts : Contracts) (tokenIn tokenOut : string)
    (amountIn : Z) : SwapQuote :=
  {| swapType := UNISWAP_V2;
     router := punch_router contracts;
     path := AbiAddressArray [tokenIn; tokenOut];
     amountIn := amountIn;
     amountOut := None;
     amountOutMin := 0;
     adapters := [] |}.

(** ** Example environments *)

(** An address check for the examples: 0x followed by 40 hexadecimal
    digits written in a single case.  [getAddress] accepts every string
    this check accepts (only a mixed-case address carries a checksum).
    What it accepts besides (a mixed-case address with a valid checksum,
    40 digits without the prefix, an ICAN address) is not used below: the
    one string the examples have the encoder refuse, 0xA, is none of
    these. *)
Definition isDecimalDigit (c : ascii) : bool :=
  (48 <=? nat_of_ascii c)%nat && (nat_of_ascii c <=? 57)%nat.

Definition isLowerHexDigit (c : ascii) : bool :=
  isDecimalDigit c || ((97 <=? nat_of_ascii c)%nat && (nat_of_ascii c <=? 102)%nat).

Definition isUpperHexDigit (c : ascii) : bool :=
  isDecimalDigit c || ((65 <=? nat_of_ascii c)%nat && (nat_of_ascii c <=? 70)%nat).

Definition isSingleCaseAddress (s : string) : bool :=
  match s with
  | String "0"%char (String "x"%char digits) =>
      (String.length digits =? 40)%nat &&
      (forallb isLowerHexDigit (list_ascii_of_string digits) ||
       forallb isUpperHexDigit (list_ascii_of_string digits))
  | _ => false
  end.

Definition addressA : string := "0xaaaaaaaaaaaaaaaaaaaaaaaaaaaaaaaaaaaaaaaa".
Definition addressB : string := "0xbbbbbbbbbbbbbbbbbbbbbbbbbbbbbbbbbbbbbbbb".
Definition addressD : string := "0xdddddddddddddddddddddddddddddddddddddddd".
(** One asset spelled in upper and in lower case: the two strings are
    equal after [toLowerCase]. *)
Definition addressWFLOW : string := "0xD3BF53DAC106A0290B0483ECBC89D40FCC961F3E".
Definition addressWFLOW_lower : string := "0xd3bf53dac106a0290b0483ecbc89d40fcc961f3e".

(** The reserve is enabled as collateral (bit 56), the token has 18
    decimals, and the oracle's price read fails. *)
Definition chainPriceFails : Chain :=
  {| pool_ADDRESSES_PROVIDER := fun _ => Some "0xProvider";
     provider_getPriceOracle := fun _ => Some "0xOracle";
     oracle_getAssetPrice := fun _ _ => None;
     erc20_decimals := fun _ => Some 18;
     pool_getReserveData := fun _ _ => Some (2 ^ 56);
     erc20_balanceOf := fun _ _ => Some 0 |}.

Definition contractsExample : Contracts :=
  {| punch_router := "0xPunch";
     trado_router := "0xTrado";
     trado_quoter := "0xQuoter";
     agrokitty_router := "0xAgro";
     wflow := "0xWFLOW" |}.

(** Only the aggregator answers: its best path yields 2000 for 1000. *)
Definition venuesAgroOnly : Venues :=
  {| v2Router_getAmountsOut := fun _ _ => None;
     v3Quoter_quoteExactInput := fun _ _ => None;
     agroKittyRouter_findBestPath := fun amountIn tokenIn tokenOut _ =>
       Some {| offer_amounts := [amountIn; 2 * amountIn];
               offer_adapters := ["0xAdapter"];
               offer_path := [tokenIn; tokenOut];
               offer_gasEstimate := 21000 |} |}.

(** Only the constant-product venue answers. *)
Definition venuesV2Only : Venues :=
  {| v2Router_getAmountsOut := fun amountIn _ => Some [amountIn; 990];
     v3Quoter_quoteExactInput := fun _ _ => None;
     agroKittyRouter_findBestPath := fun _ _ _ _ => None |}.

(** Prices of one dollar, 18 decimals, every reserve enabled as
    collateral with a 105% bonus, and no liquidity in any wrapper. *)
Definition chainNoLiquidity : Chain :=
  {| pool_ADDRESSES_PROVIDER := fun _ => Some "0xProvider";
     provider_getPriceOracle := fun _ => Some "0xOracle";
     oracle_getAssetPrice := fun _ _ => Some 100000000;
     erc20_decimals := fun _ => Some 18;
     pool_getReserveData := fun _ _ => Some (2 ^ 56 + 10500 * 2 ^ 32);
     erc20_balanceOf := fun _ _ => Some 0 |}.

(** A borrower with 10 units of collateral C and 1000 units of debt D;
    the wrapper of D is known through the underlying index. *)
Definition positionExample : Position :=
  {| mInfos := [{| token := "0xC"; amount := 10 |}];
     dInfos := [{| token := "0xD"; amount := 1000 |}];
     tokensWithUnderlying :=
       [{| underlyingToken := "0xc"; mtoken := "0xMC" |};
        {| underlyingToken := "0xd"; mtoken := "0xMD" |}] |}.

Definition borrowerExample : HealthRecord :=
  {| pool := "0xPool"; user := "0xBorrower"; healthFactor := 9 * 10 ^ 17 |}.

(** As [chainNoLiquidity], but the liquidity read fails. *)
Definition chainBalanceFails : Chain :=
  {| pool_ADDRESSES_PROVIDER := fun _ => Some "0xProvider";
     provider_getPriceOracle := fun _ => Some "0xOracle";
     oracle_getAssetPrice := fun _ _ => Some 100000000;
     erc20_decimals := fun _ => Some 18;
     pool_getReserveData := fun _ _ => Some (2 ^ 56 + 10500 * 2 ^ 32);
     erc20_balanceOf := fun _ _ => None |}.

(** The aggregator finds a route out of token A only. *)
Definition venuesRouteFromAOnly : Venues :=
  {| v2Router_getAmountsOut := fun _ _ => None;
     v3Quoter_quoteExactInput := fun _ _ => None;
     agroKittyRouter_findBestPath := fun amountIn tokenIn tokenOut _ =>
       if string_eqb tokenIn addressA
       then Some {| offer_amounts := [amountIn; 2 * amountIn];
                    offer_adapters := ["0xAdapter"];
                    offer_path := [tokenIn; tokenOut];
                    offer_gasEstimate := 21000 |}
       else None |}.

(** The v3 quoter answers 700 on the 0.05% tier, 900 on the 0.3% and 1%
    tiers, and has no pool on the 0.01% tier. *)
Definition venuesV3Tiers : Venues :=
  {| v2Router_getAmountsOut := fun _ _ => None;
     v3Quoter_quoteExactInput := fun path _ =>
       match path with
       | SolidityPackV3 _ 500 _ => Some 700
       | SolidityPackV3 _ 3000 _ => Some 900
       | SolidityPackV3 _ 10000 _ => Some 900
       | _ => None
       end;
     agroKittyRouter_findBestPath := fun _ _ _ _ => None |}.

(** The output the v3 quoter reports for one fee tier. *)
Definition tierOutput (venues : Venues) (tokenIn tokenOut : string)
    (amountIn fee : Z) : option Z :=
  v3Quoter_quoteExactInput venues (SolidityPackV3 tokenIn fee tokenOut) amountIn.

(** What the fee-tier loop has established after the tiers [processed]:
    no tier seen so far reports more than the running best, and the best
    is held by the first tier that reports it. *)
Definition v3LoopInvariant (venues : Venues) (tokenIn tokenOut : string)
    (amountIn : Z) (processed : list Z) (best : V3Best) : Prop :=
  match bestPath best with
  | None =>
      bestAmountOut best = 0 /\
      Forall (fun fee => forall m,
                tierOutput venues tokenIn tokenOut amountIn fee = Some m -> m <= 0)
        processed
  | Some p =>
      exists before fee after,
        processed = before ++ fee :: after /\
        p = SolidityPackV3 tokenIn fee tokenOut /\
        bestFee best = fee /\
        tierOutput venues tokenIn tokenOut amountIn fee = Some (bestAmountOut best) /\
        0 < bestAmountOut best /\
        Forall (fun f => forall m,
                  tierOutput venues tokenIn tokenOut amountIn f = Some m ->
                  m < bestAmountOut best) before /\
        Forall (fun f => forall m,
                  tierOutput venues tokenIn tokenOut amountIn f = Some m ->
                  m <= bestAmountOut best) after
  end.

(** ** The position resolver in terms of the wrappers' answers *)

(** One wrapper's answers: the borrower's balance and the underlying
    asset.  [interleave] is the decoded result list they arrive as. *)
Definition interleave (answers : list (Z * string)) : list Info :=
  answers ≫= (fun answer => [InfoBalance answer.1; InfoUnderlying answer.2]).

(** The holdings of the wrappers with a positive balance, in order. *)
Definition holdingsOf (answers : list (Z * string)) : list Holding :=
  omap (fun answer =>
          if BigNumber.gt answer.1 0
          then Some {| token := answer.2; amount := answer.1 |}
          else None)
    answers.

(** Adds a collateral wrapper to the index unless its underlying asset
    is already a key. *)
Definition registerUnderlying (index : list UnderlyingEntry)
    (wrapper : string * (Z * string)) : list UnderlyingEntry :=
  match findIndex
          (fun tokenItem =>
             string_eqb (underlyingToken tokenItem) (toLowerCase wrapper.2.2))
          index with
  | None => index ++ [{| underlyingToken := toLowerCase wrapper.2.2;
                         mtoken := wrapper.1 |}]
  | Some _ => index
  end.

Definition underlyingIndexOf (mTokens : list string)
    (answers : list (Z * string)) : list UnderlyingEntry :=
  foldl registerUnderlying [] (zip mTokens answers).

(** The loop's state once the first [k] wrappers are decoded. *)
Definition positionAfter (mTokens : list string) (answers : list (Z * string))
    (k : nat) : Position :=
  {| mInfos := holdingsOf (take k (take (length mTokens) answers));
     dInfos := holdingsOf (take (k - length mTokens) (drop (length mTokens) answers));
     tokensWithUnderlying :=
       foldl registerUnderlying [] (take k (zip mTokens answers)) |}.

(** [index.js], lines 226-357: the decode loop followed by the
    liquidation attempt. *)
Definition resolveAndLiquidate_index (chain : Chain) (mTokens : list string)
    (tokenInfos : list Info) (unhealthyUser : HealthRecord)
  : completion Outcome :=
  st ← resolvePosition mTokens tokenInfos;
  liquidate_index chain unhealthyUser st.

(** ** The batch call gateway and the loops of [main] built on it *)

(** The calls [main] encodes, kept symbolic. *)
Inductive CallData : Type :=
| GetUserAccountData (user : string)
| BalanceOf (user : string)
| UNDERLYING_ASSET_ADDRESS.

Record Call : Type := {
  target : string;
  callData : CallData
}.

(** [config.bots[pool]] *)
Record BotInfo : Type := {
  mTokens : list string;
  dTokens : list string;
  bot : string
}.

(** [mTokenRequest] of [main]: for every wrapper a balance call followed
    by an underlying-asset call, collateral wrappers first. *)
Definition mTokenRequest (botInfo : BotInfo) (borrower : string) : list Call :=
  (mTokens botInfo ≫= fun mToken =>
     [{| target := mToken; callData := BalanceOf borrower |};
      {| target := mToken; callData := UNDERLYING_ASSET_ADDRESS |}]) ++
  (dTokens botInfo ≫= fun dToken =>
     [{| target := dToken; callData := BalanceOf borrower |};
      {| target := dToken; callData := UNDERLYING_ASSET_ADDRESS |}]).

Definition userChunkSize : nat := 50.

(** The values [i] takes in [for (let i = 0; i < n; i += userChunkSize)]. *)
Definition chunkStarts (n : nat) : list nat :=
  (fun j => j * userChunkSize)%nat <$> seq 0 ((n + (userChunkSize - 1)) / userChunkSize).

Section Gateway.
(** Raw return data, [multicallContract.callStatic.aggregate] ([None]
    when the batched call fails) and the ABI decoders. *)
Context {raw : Type}.
Variable aggregate : list Call -> option (list raw).
Variable decode_getUserAccountData : raw -> completion Z.
Variable decode_balanceOf : raw -> completion Z.
Variable decode_UNDERLYING_ASSET_ADDRESS : raw -> completion string.

(** [returnData.map((userHealth, ind) => ...)] of the health scan: the
    record at position [ind] of the chunk starting at [i] is given the
    user [users[ind + i]]. *)
Fixpoint decodeChunk (pool : string) (users : list string) (i ind : nat)
    (returnData : list raw) : completion (list HealthRecord) :=
  match returnData with
  | [] => Return []
  | userHealth :: rest =>
      healthFactor ← decode_getUserAccountData userHealth;
      record ← match users !! (ind + i)%nat with
               | Some userId =>
                   Return {| pool := pool; user := userId;
                             healthFactor := BigNumber.from healthFactor |}
               | None => Throw (TypeError "users[ind + i].id")
               end;
      records ← decodeChunk pool users i (S ind) rest;
      Return (record :: records)
  end.

(** The body of the chunk loop ([index.js], lines 85-117). *)
Definition scanChunk (pool : string) (users : list string) (i : nat)
    (allUsersHealthRes : list HealthRecord) : completion (list HealthRecord) :=
  let userChunk := take userChunkSize (drop i users) in
  let usersHealthReq :=
    (fun user => {| target := pool; callData := GetUserAccountData user |})
      <$> userChunk in
  if decide (0 < length usersHealthReq)%nat then
    chunkHealthRes ← await "aggregate" (aggregate usersHealthReq);
    userWithHealth ← decodeChunk pool users i 0 chunkHealthRes;
    Return (allUsersHealthRes ++ userWithHealth)
  else Return allUsersHealthRes.

(** [index.js], lines 77-119. *)
Definition scanHealth (pools : list string) (users : list string)
  : completion (list HealthRecord) :=
  foldl
    (fun acc pool =>
       foldl (fun acc i => allUsersHealthRes ← acc;
                           scanChunk pool users i allUsersHealthRes)
         acc (chunkStarts (length users)))
    (Return []) pools.

(** [index.js], lines 186-266: the token requests, the batched call and
    its decoding. *)
Definition fetchTokenInfos (botInfo : BotInfo) (borrower : string)
  : completion (list Info) :=
  tokenRes ← await "aggregate" (aggregate (mTokenRequest botInfo borrower));
  decodeTokenInfos decode_balanceOf decode_UNDERLYING_ASSET_ADDRESS 0 tokenRes.

(** The body of [for (const unhealthyUser of unhealthyUsers)] in
    [index.js].  A pool without an entry in [config.bots] makes
    [botInfo.mTokens] a TypeError. *)
Definition processBorrower_index (chain : Chain) (bots : gmap string BotInfo)
    (unhealthyUser : HealthRecord) : completion Outcome :=
  match bots !! pool unhealthyUser with
  | None => Throw (TypeError "botInfo.mTokens")
  | Some botInfo =>
      tokenInfos ← fetchTokenInfos botInfo (user unhealthyUser);
      resolveAndLiquidate_index chain (mTokens botInfo) tokenInfos unhealthyUser
  end.

(** Step 3 of [main] in [index.js]: the borrowers of the liquidatable
    tier, one after the other. *)
Definition liquidateUnhealthy_index (chain : Chain) (bots : gmap string BotInfo)
    (allUsersHealthRes : list HealthRecord) : completion (list Outcome) :=
  mapM (processBorrower_index chain bots) (unhealthyUsers allUsersHealthRes).
End Gateway.

(** ** Fetching the borrowers ([index.js], lines 52-75)

    [query first skip] is one request to the indexing service: [None]
    when the request fails, [Some None] when the answer carries no user
    list ([accountsInfo?.data?.users] is undefined), [Some (Some page)]
    otherwise.  The [while] loop need not end, so the model counts
    rounds: the result is [None] when [rounds] requests were not enough. *)
Definition first : nat := 100.

Fixpoint fetchUsers (query : nat -> nat -> option (option (list string)))
    (rounds : nat) (skip : nat) (allUsers : list string)
  : option (completion (list string)) :=
  match rounds with
  | O => None
  | S rounds' =>
      match query first skip with
      | None => Some (Throw (CallException "apolloFetcher"))
      | Some accountsInfo =>
          let fetchedUsers := default [] accountsInfo in
          let allUsers := allUsers ++ fetchedUsers in
          if decide (length fetchedUsers < first)%nat
          then Some (Return allUsers)
          else fetchUsers query rounds' (skip + first) allUsers
      end
  end.

(** An order-preserving gateway over symbolic return data: every
    borrower has health factor 0.5 and a balance of 7 in every wrapper
    but 0xM1, and a wrapper's underlying asset is its own name in upper
    case followed by U. *)
Definition respondExample (call : Call) : Info :=
  match callData call with
  | GetUserAccountData _ => InfoBalance (5 * 10 ^ 17)
  | BalanceOf _ => InfoBalance (if string_eqb (target call) "0xM1" then 0 else 7)
  | UNDERLYING_ASSET_ADDRESS => InfoUnderlying (target call ++ "U")
  end.

Definition aggregateExample (calls : list Call) : option (list Info) :=
  Some (respondExample <$> calls).

Definition decodeUintExample (r : Info) : completion Z :=
  match r with
  | InfoBalance z => Return z
  | InfoUnderlying _ => Throw (Error "decodeFunctionResult")
  end.

Definition decodeAddressExample (r : Info) : completion string :=
  match r with
  | InfoUnderlying a => Return a
  | InfoBalance _ => Throw (Error "decodeFunctionResult")
  end.

Definition botInfoExample : BotInfo :=
  {| mTokens := ["0xM1"; "0xM2"]; dTokens := ["0xD1"]; bot := "0xBot" |}.

(** An indexing service that pages through 250 borrowers. *)
Definition queryExample (first skip : nat) : option (option (list string)) :=
  Some (Some (take first (drop skip (replicate 250 "0xUser")))).

(** As [chainNoLiquidity], but no reserve is enabled as collateral and
    the wrappers hold 400 of every asset. *)
Definition chainNotCollateral : Chain :=
  {| pool_ADDRESSES_PROVIDER := fun _ => Some "0xProvider";
     provider_getPriceOracle := fun _ => Some "0xOracle";
     oracle_getAssetPrice := fun _ _ => Some 100000000;
     erc20_decimals := fun _ => Some 18;
     pool_getReserveData := fun _ _ => Some (10500 * 2 ^ 32);
     erc20_balanceOf := fun _ _ => Some 400 |}.

(** Every reserve enabled with a 105% bonus, both prices one dollar,
    18 decimals, and 400 of every asset in the wrappers. *)
Definition chainLiquid : Chain :=
  {| pool_ADDRESSES_PROVIDER := fun _ => Some "0xProvider";
     provider_getPriceOracle := fun _ => Some "0xOracle";
     oracle_getAssetPrice := fun _ _ => Some 100000000;
     erc20_decimals := fun _ => Some 18;
     pool_getReserveData := fun _ _ => Some (2 ^ 56 + 10500 * 2 ^ 32);
     erc20_balanceOf := fun _ _ => Some 400 |}.



(* ================================================================== *)
(** * Part II: properties *)
(* ================================================================== *)

(** ** Sizing engine *)

Lemma threshold_value : CLOSE_FACTOR_HF_THRESHOLD = 95 * 10 ^ 16.
Proof. reflexivity. Qed.

Lemma closeFactor_spec h : closeFactor h = spec_closeFactorBps h.
Proof.
  unfold closeFactor, spec_closeFactorBps, BigNumber.lt.
  rewrite threshold_value.
  destruct (decide (h < 95 * 10 ^ 16)) as [Hlt | Hge].
  - rewrite bool_decide_eq_true_2; done.
  - rewrite bool_decide_eq_false_2; done.
Qed.

Lemma closeFactor_amount_le (h d : Z) :
  0 <= d -> 0 <= calculateDebtToCover h d <= d.
Proof.
  intros Hd. unfold calculateDebtToCover, BigNumber.div, BigNumber.mul.
  rewrite closeFactor_spec. unfold spec_closeFactorBps.
  destruct (decide (h < 95 * 10 ^ 16)).
  - rewrite Z.quot_mul by lia. lia.
  - rewrite Z.quot_div_nonneg by lia.
    split.
    + apply Z.div_pos; lia.
    + apply Z.div_le_upper_bound; lia.
Qed.

(** C3.  [calculateDebtToCover] uses a close factor of 10000 basis points
    exactly when the health factor is below 0.95 * 10^18 and 5000 basis
    points otherwise, and returns debt * closeFactor / 10000 in integer
    arithmetic with truncating division (which is the floor on the
    non-negative balances the chain reports). *)
Theorem calculateDebtToCover_close_factor (h d : Z) :
  0 < h < 10 ^ 18 ->
  (closeFactor h = 10000 <-> h < 95 * 10 ^ 16) /\
  (closeFactor h = 5000 <-> 95 * 10 ^ 16 <= h) /\
  calculateDebtToCover h d = Z.quot (d * closeFactor h) 10000 /\
  (0 <= d -> calculateDebtToCover h d = (d * spec_closeFactorBps h) / 10000).
Proof.
  intros _. rewrite closeFactor_spec.
  unfold calculateDebtToCover, BigNumber.div, BigNumber.mul.
  rewrite closeFactor_spec. unfold spec_closeFactorBps.
  destruct (decide (h < 95 * 10 ^ 16)); repeat split; try lia.
  all: intros Hd; apply Z.quot_div_nonneg; lia.
Qed.

Lemma calculateDebtToCover_close_factor_witness :
  0 < 97 * 10 ^ 16 < 10 ^ 18 /\
  closeFactor (97 * 10 ^ 16) = 5000 /\
  calculateDebtToCover (97 * 10 ^ 16) 1001 = 500.
Proof.
  split; [lia |].
  destruct (calculateDebtToCover_close_factor (97 * 10 ^ 16) 1001) as (_ & H5 & Hq & _);
    [lia |].
  split; [apply H5; lia |].
  rewrite Hq. reflexivity.
Defined.

Lemma calculateDebtToCover_spec h d :
  calculateDebtToCover h d = Z.quot (spec_closeFactorBps h * d) 10000.
Proof.
  unfold calculateDebtToCover, BigNumber.div, BigNumber.mul.
  rewrite closeFactor_spec. f_equal. lia.
Qed.

Lemma sizeDebtToCover_index_unfold d a :
  sizeDebtToCover_index d a =
  if decide (a < d)
  then {| checkedBal := a; cover := a |}
  else {| checkedBal := d; cover := constants.MaxUint256 |}.
Proof.
  unfold sizeDebtToCover_index, BigNumber.gt.
  destruct (decide (a < d)) as [Hlt | Hge].
  - rewrite bool_decide_eq_true_2 by lia. reflexivity.
  - rewrite bool_decide_eq_false_2 by lia. reflexivity.
Qed.

(** The per-borrower step of [index.js] once the position has a first
    collateral and a first debt holding, the debt asset's wrapper is in
    the index and its liquidity was read. *)
Lemma liquidate_index_submits (chain : Chain) (unhealthyUser : HealthRecord)
    (st : Position) (m0 d0 : Holding) (ms ds : list Holding)
    (debtMToken : UnderlyingEntry) (a : Z) :
  mInfos st = m0 :: ms ->
  dInfos st = d0 :: ds ->
  findDebtMToken (token d0) (tokensWithUnderlying st) = Some debtMToken ->
  erc20_balanceOf chain (token d0) (mtoken debtMToken) = Some a ->
  liquidate_index chain unhealthyUser st =
    Return (Submitted
      {| lp_collateralAsset := token m0;
         lp_debtAsset := token d0;
         lp_user := user unhealthyUser;
         lp_amount := checkedBal (sizeDebtToCover_index (amount d0) a);
         lp_transferAmount := 0;
         lp_debtToCover := cover (sizeDebtToCover_index (amount d0) a) |}).
Proof.
  intros Hm Hd Hfind Hbal.
  unfold liquidate_index. rewrite Hm, Hd, Hfind, Hbal. reflexivity.
Qed.

(** The sizing of the close-factor variant stops at its call of
    [BigNumber.min]. *)
Lemma sizeDebtToCover_throws h d a :
  sizeDebtToCover h d a = Throw (TypeError "BigNumber.min is not a function").
Proof. reflexivity. Qed.




(** C2 as stated fails.  With health factor 0.9, debt 1000 and liquidity
    400 the liquidity is the binding term of min(10000 * 1000 / 10000,
    400).  [index.js] submits the exact amount 400 as [debtToCover], not
    the sentinel; the close-factor variant returns no [debtToCover] at
    all, its step ends at the call of [BigNumber.min]. *)
Lemma sentinel_iff_liquidity_binds_counterexample :
  ~ (forall lParam,
       liquidate_index chainLiquid borrowerExample positionExample
         = Return (Submitted lParam) ->
       (lp_debtToCover lParam = constants.MaxUint256 <->
        400 < Z.quot (spec_closeFactorBps (healthFactor borrowerExample) * 1000)
                10000)) /\
  ~ (exists lParam swapParams,
       liquidate chainLiquid venuesAgroOnly contractsExample
         isSingleCaseAddress borrowerExample positionExample
         = Return (Assembled lParam swapParams)).
Proof.
  split.
  - intros H.
    specialize (H {| lp_collateralAsset := "0xC"; lp_debtAsset := "0xD";
                     lp_user := "0xBorrower"; lp_amount := 400;
                     lp_transferAmount := 0; lp_debtToCover := 400 |} eq_refl).
    destruct H as [_ Hsentinel].
    assert (Hbinds : 400 < Z.quot (spec_closeFactorBps (healthFactor borrowerExample)
                                     * 1000) 10000)
      by (vm_compute; reflexivity).
    specialize (Hsentinel Hbinds). vm_compute in Hsentinel. discriminate Hsentinel.
  - intros (lParam & swapParams & Hrun).
    vm_compute in Hrun. discriminate Hrun.
Qed.

(** C2, amended.  For a uint256 debt balance d and available liquidity a,
    the sizing step of [index.js] submits the [MaxUint256] sentinel as
    [debtToCover] if and only if the debt balance is the binding term of
    min(d, a), ties included, that is, d <= a; it submits the exact amount
    a if and only if a < d.  No close factor enters. *)
Theorem sentinel_iff_debt_binds (chain : Chain) (unhealthyUser : HealthRecord)
    (st : Position) (m0 d0 : Holding) (ms ds : list Holding)
    (debtMToken : UnderlyingEntry) (a : Z) :
  mInfos st = m0 :: ms ->
  dInfos st = d0 :: ds ->
  0 <= amount d0 <= constants.MaxUint256 ->
  findDebtMToken (token d0) (tokensWithUnderlying st) = Some debtMToken ->
  erc20_balanceOf chain (token d0) (mtoken debtMToken) = Some a ->
  exists lParam,
    liquidate_index chain unhealthyUser st = Return (Submitted lParam) /\
    (lp_debtToCover lParam = constants.MaxUint256 <-> amount d0 <= a) /\
    (lp_debtToCover lParam = a /\ lp_debtToCover lParam <> constants.MaxUint256
     <-> a < amount d0).
Proof.
  intros Hm Hd Huint Hfind Hbal.
  eexists. split; [exact (liquidate_index_submits _ _ _ _ _ _ _ _ _ Hm Hd Hfind Hbal) |].
  cbn [lp_debtToCover]. rewrite sizeDebtToCover_index_unfold.
  destruct (decide (a < amount d0)); cbn [cover]; repeat split; lia.
Qed.

Lemma sentinel_iff_debt_binds_witness :
  exists lParam,
    liquidate_index chainLiquid borrowerExample positionExample
      = Return (Submitted lParam) /\
    lp_debtToCover lParam = 400 /\
    lp_debtToCover lParam <> constants.MaxUint256.
Proof.
  destruct (sentinel_iff_debt_binds chainLiquid borrowerExample positionExample
              {| token := "0xC"; amount := 10 |}
              {| token := "0xD"; amount := 1000 |} [] []
              {| underlyingToken := "0xd"; mtoken := "0xMD" |} 400)
    as (lParam & Hrun & _ & Hexact).
  - reflexivity.
  - reflexivity.
  - vm_compute. split; discriminate.
  - reflexivity.
  - reflexivity.
  - exists lParam. split; [exact Hrun |].
    apply Hexact. simpl. lia.
Defined.

(** ** [Array.prototype.sort] *)

Section Sort.
Context {A : Type}.
Variable cmp : A -> A -> Z.

Lemma sort_insert_perm x l : Permutation (sort_insert cmp x l) (x :: l).
Proof.
  induction l as [| y l IH]; simpl.
  - reflexivity.
  - destruct (decide (cmp x y <= 0)).
    + reflexivity.
    + rewrite IH. apply perm_swap.
Qed.

Lemma array_sort_perm l : Permutation (array_sort cmp l) l.
Proof.
  induction l as [| x l IH]; simpl.
  - reflexivity.
  - rewrite sort_insert_perm. now constructor.
Qed.

Lemma array_sort_In x l : In x (array_sort cmp l) <-> In x l.
Proof.
  split; apply Permutation_in; [| symmetry]; apply array_sort_perm.
Qed.

(** The comparator orders by a key. *)
Variable key : A -> Z.
Hypothesis cmp_key : forall a b, cmp a b <= 0 <-> key a <= key b.

Let le_key (a b : A) : Prop := key a <= key b.

Lemma sort_insert_sorted x l :
  StronglySorted le_key l -> StronglySorted le_key (sort_insert cmp x l).
Proof.
  induction 1 as [| y l Hs IH Hall]; simpl.
  - repeat constructor.
  - destruct (decide (cmp x y <= 0)) as [Hle | Hgt].
    + apply cmp_key in Hle.
      constructor; [constructor; assumption |].
      constructor; [exact Hle |].
      eapply Forall_impl; [exact Hall |].
      intros z Hz. unfold le_key in *. lia.
    + constructor; [exact IH |].
      assert (Hyx : le_key y x)
        by (unfold le_key; rewrite cmp_key in Hgt; lia).
      rewrite Forall_forall. intros z Hz.
      apply list_elem_of_In in Hz.
      apply (Permutation_in _ (sort_insert_perm x l)) in Hz.
      destruct Hz as [<- | Hz]; [exact Hyx |].
      rewrite Forall_forall in Hall. apply Hall.
      apply list_elem_of_In. exact Hz.
Qed.

Lemma array_sort_sorted l : StronglySorted le_key (array_sort cmp l).
Proof.
  induction l as [| x l IH]; simpl.
  - constructor.
  - apply sort_insert_sorted, IH.
Qed.
End Sort.

(** ** Health scanner *)

Lemma compareHealthAscending_key a b :
  compareHealthAscending a b <= 0 <-> healthFactor a <= healthFactor b.
Proof.
  unfold compareHealthAscending, BigNumber.lt, BigNumber.gt.
  repeat case_bool_decide; lia.
Qed.

Lemma wide_threshold :
  BigNumber.div (BigNumber.mul constants.WeiPerEther 105) 100 = 105 * 10 ^ 16.
Proof. reflexivity. Qed.

Lemma In_unhealthyUsers all r :
  In r (unhealthyUsers all) <-> In r all /\ 0 < healthFactor r <= 10 ^ 18.
Proof.
  unfold unhealthyUsers. rewrite filter_In, andb_true_iff.
  unfold BigNumber.lte, BigNumber.gt, constants.WeiPerEther.
  rewrite !bool_decide_eq_true. intuition lia.
Qed.

Lemma In_wideUnhealthyUsers all r :
  In r (wideUnhealthyUsers all) <->
  In r all /\ 10 ^ 18 <= healthFactor r < 105 * 10 ^ 16.
Proof.
  unfold wideUnhealthyUsers. rewrite array_sort_In, filter_In, andb_true_iff.
  rewrite wide_threshold.
  unfold BigNumber.lt, BigNumber.gte, constants.WeiPerEther.
  rewrite !bool_decide_eq_true. intuition lia.
Qed.

Lemma In_zeroHealthUsers all r :
  In r (zeroHealthUsers all) <-> In r all /\ healthFactor r = 0.
Proof.
  unfold zeroHealthUsers. rewrite filter_In.
  unfold BigNumber.eq. rewrite bool_decide_eq_true. reflexivity.
Qed.

(** C9.  For every scan and every record: the record is in the
    liquidatable tier exactly when it was scanned and
    0 < healthFactor <= 10^18, in the watch tier exactly when
    10^18 <= healthFactor < 1.05 * 10^18, and in the zeroed tier exactly
    when healthFactor = 0; the liquidatable and zeroed tiers keep the
    scan's order; the watch tier is sorted ascending by health factor
    (and is a rearrangement of the matching records); a record with
    health factor 0 and one with a positive health factor below 10^18
    land in different tiers, the former outside the liquidatable tier
    that the liquidation loop iterates over. *)
Theorem scan_tiers (allUsersHealthRes : list HealthRecord) :
  (forall r,
     In r (unhealthyUsers allUsersHealthRes) <->
     In r allUsersHealthRes /\ 0 < healthFactor r <= 10 ^ 18) /\
  (forall r,
     In r (wideUnhealthyUsers allUsersHealthRes) <->
     In r allUsersHealthRes /\ 10 ^ 18 <= healthFactor r < 105 * 10 ^ 16) /\
  (forall r,
     In r (zeroHealthUsers allUsersHealthRes) <->
     In r allUsersHealthRes /\ healthFactor r = 0) /\
  unhealthyUsers allUsersHealthRes =
    List.filter (fun u => bool_decide (0 < healthFactor u <= 10 ^ 18))
      allUsersHealthRes /\
  zeroHealthUsers allUsersHealthRes =
    List.filter (fun u => bool_decide (healthFactor u = 0)) allUsersHealthRes /\
  StronglySorted (fun a b => healthFactor a <= healthFactor b)
    (wideUnhealthyUsers allUsersHealthRes) /\
  Permutation (wideUnhealthyUsers allUsersHealthRes)
    (List.filter
       (fun u => bool_decide (10 ^ 18 <= healthFactor u < 105 * 10 ^ 16))
       allUsersHealthRes) /\
  (forall r0,
     In r0 allUsersHealthRes -> healthFactor r0 = 0 ->
     In r0 (zeroHealthUsers allUsersHealthRes) /\
     ~ In r0 (unhealthyUsers allUsersHealthRes) /\
     ~ In r0 (wideUnhealthyUsers allUsersHealthRes)) /\
  (forall r1,
     In r1 allUsersHealthRes -> 0 < healthFactor r1 < 10 ^ 18 ->
     In r1 (unhealthyUsers allUsersHealthRes) /\
     ~ In r1 (zeroHealthUsers allUsersHealthRes) /\
     ~ In r1 (wideUnhealthyUsers allUsersHealthRes)).
Proof.
  split; [intros r; apply In_unhealthyUsers |].
  split; [intros r; apply In_wideUnhealthyUsers |].
  split; [intros r; apply In_zeroHealthUsers |].
  split.
  { unfold unhealthyUsers. apply filter_ext. intros u.
    unfold BigNumber.lte, BigNumber.gt, constants.WeiPerEther.
    repeat case_bool_decide; simpl; try reflexivity; lia. }
  split.
  { unfold zeroHealthUsers. reflexivity. }
  split.
  { unfold wideUnhealthyUsers.
    apply (array_sort_sorted compareHealthAscending healthFactor).
    apply compareHealthAscending_key. }
  split.
  { unfold wideUnhealthyUsers. rewrite array_sort_perm.
    erewrite filter_ext; [reflexivity |].
    intros u. cbv beta. rewrite wide_threshold.
    unfold BigNumber.lt, BigNumber.gte, constants.WeiPerEther.
    repeat case_bool_decide; simpl; try reflexivity; lia. }
  split.
  - intros r0 Hin0 Hz.
    rewrite In_unhealthyUsers, In_wideUnhealthyUsers, In_zeroHealthUsers.
    intuition lia.
  - intros r1 Hin1 Hpos.
    rewrite In_unhealthyUsers, In_wideUnhealthyUsers, In_zeroHealthUsers.
    intuition lia.
Qed.

Lemma scan_tiers_witness :
  let r0 := {| pool := "p"; user := "a"; healthFactor := 0 |} in
  let r1 := {| pool := "p"; user := "b"; healthFactor := 10 ^ 11 |} in
  In r0 (zeroHealthUsers [r0; r1]) /\ In r1 (unhealthyUsers [r0; r1]) /\
  ~ In r0 (unhealthyUsers [r0; r1]) /\
  unhealthyUsers [r1] = [r1].
Proof.
  intros r0 r1.
  destruct (scan_tiers [r0; r1]) as (_ & _ & _ & _ & _ & _ & _ & H0 & H1).
  destruct (H0 r0) as (Ha & Hb & _).
  { simpl. left. reflexivity. }
  { reflexivity. }
  destruct (H1 r1) as (Hc & _).
  { simpl. right. left. reflexivity. }
  { simpl. lia. }
  split; [exact Ha |]. split; [exact Hc |]. split; [exact Hb |].
  destruct (scan_tiers [r1]) as (_ & _ & _ & Hfilter & _).
  rewrite Hfilter. reflexivity.
Defined.

(** ** Loops *)

Lemma for_loop_succ {S : Type} (n : nat) (body : nat -> S -> completion S) init :
  for_loop (Datatypes.S n) body init = (st ← for_loop n body init; body n st).
Proof.
  unfold for_loop. rewrite seq_S, foldl_app. reflexivity.
Qed.

Lemma for_loop_invariant {S : Type} (I : nat -> S -> Prop)
    (n : nat) (body : nat -> S -> completion S) (init st : S) :
  I 0%nat init ->
  (forall ii s s', (ii < n)%nat -> I ii s -> body ii s = Return s' ->
                   I (Datatypes.S ii) s') ->
  for_loop n body init = Return st ->
  I n st.
Proof.
  intros Hinit Hstep. revert st.
  induction n as [| n IH]; intros st Hrun.
  - unfold for_loop in Hrun. simpl in Hrun. congruence.
  - rewrite for_loop_succ in Hrun.
    destruct (for_loop n body init) as [s | e] eqn:Hn; simpl in Hrun;
      [| discriminate].
    apply (Hstep n s st); [lia | | exact Hrun].
    apply IH; [| reflexivity].
    intros ii s0 s' Hlt. apply Hstep. lia.
Qed.

(** A loop whose body returns whenever the invariant holds runs to its end. *)
Lemma for_loop_returns {S : Type} (I : nat -> S -> Prop)
    (n : nat) (body : nat -> S -> completion S) (init : S) :
  I 0%nat init ->
  (forall ii s, (ii < n)%nat -> I ii s ->
                exists s', body ii s = Return s' /\ I (Datatypes.S ii) s') ->
  exists st, for_loop n body init = Return st /\ I n st.
Proof.
  intros Hinit Hstep.
  induction n as [| n IH].
  - exists init. split; [reflexivity | exact Hinit].
  - destruct IH as (s & Hs & HI).
    { intros ii s0 Hlt. apply Hstep. lia. }
    destruct (Hstep n s) as (s' & Hb & HI'); [lia | exact HI |].
    exists s'. split; [| exact HI'].
    rewrite for_loop_succ, Hs. exact Hb.
Qed.

(** ** Position resolver *)

Lemma findIndex_None {A : Type} (pred : A -> bool) (arr : list A) :
  findIndex pred arr = None <-> Forall (fun x => pred x = false) arr.
Proof.
  unfold findIndex. rewrite fmap_None, list_find_None.
  apply Forall_proper; [| reflexivity].
  intros x. destruct (pred x); split; congruence.
Qed.

Lemma findIndex_Some {A : Type} (pred : A -> bool) (arr : list A) (i : nat) :
  findIndex pred arr = Some i -> exists x, x ∈ arr /\ pred x = true.
Proof.
  unfold findIndex. rewrite fmap_Some. intros ([j x] & Hfind & _).
  apply list_find_Some in Hfind as (Hlook & Hp & _).
  exists x. split; [eapply list_elem_of_lookup_2; exact Hlook | exact Hp].
Qed.

Section ResolverFacts.
Variable mTokens : list string.
Variable tokenInfos : list Info.

Local Abbreviation step := (resolveStep mTokens tokenInfos).

Ltac step_cases H :=
  unfold resolveStep in H; cbv zeta in H;
  repeat (case_decide || case_match); simplify_eq; simpl in *.

Lemma resolveStep_holdings ii st st' :
  step ii st = Return st' ->
  Forall (fun h => 0 < amount h) (mInfos st) ->
  Forall (fun h => 0 < amount h) (dInfos st) ->
  Forall (fun h => 0 < amount h) (mInfos st') /\
  Forall (fun h => 0 < amount h) (dInfos st').
Proof.
  intros H Hm Hd. step_cases H; try (split; assumption).
  all: match goal with
       | Hgt : BigNumber.gt _ 0 = true |- _ =>
           unfold BigNumber.gt in Hgt; apply bool_decide_eq_true in Hgt
       end.
  all: split; try assumption.
  all: apply Forall_app; split; [assumption |].
  all: constructor; [simpl; unfold BigNumber.from; lia | constructor].
Qed.

Lemma resolveStep_keys ii st st' :
  step ii st = Return st' ->
  NoDup (indexKeys st) ->
  NoDup (indexKeys st') /\
  (forall k, k ∈ indexKeys st -> k ∈ indexKeys st') /\
  (forall u, (ii mod 2 <> 0)%nat -> (ii < length mTokens * 2)%nat ->
             tokenInfos !! ii = Some (InfoUnderlying u) ->
             toLowerCase u ∈ indexKeys st').
Proof.
  unfold indexKeys.
  intros H Hnd. step_cases H; try (split; [assumption | split; [auto | intros; try lia]]).
  - (* the key is already registered *)
    simplify_eq.
    match goal with
    | Hf : findIndex _ _ = Some _ |- _ =>
        apply findIndex_Some in Hf as (x & Hin & Hp)
    end.
    unfold string_eqb in Hp. apply bool_decide_eq_true in Hp. rewrite <- Hp.
    apply list_elem_of_fmap. exists x. split; [reflexivity | exact Hin].
  - (* a fresh key is appended *)
    match goal with
    | Hf : findIndex _ _ = None |- _ =>
        apply findIndex_None in Hf; rename Hf into Hfresh
    end.
    rewrite fmap_app. simpl.
    split; [| split].
    + apply NoDup_app. split; [assumption |]. split; [| apply NoDup_singleton].
      intros k Hk Hk'. apply list_elem_of_singleton in Hk'. subst k.
      apply list_elem_of_fmap in Hk as (x & Hx & Hin).
      rewrite Forall_forall in Hfresh. specialize (Hfresh x Hin).
      unfold string_eqb in Hfresh. apply bool_decide_eq_false in Hfresh.
      congruence.
    + intros k Hk. apply elem_of_app. left. exact Hk.
    + intros u0 _ _ Hu. simplify_eq.
      apply elem_of_app. right. apply list_elem_of_singleton. reflexivity.
Qed.
End ResolverFacts.

(** The decoder yields one entry per result, a balance at even positions
    and an underlying address at odd ones. *)
Lemma decodeTokenInfos_shape {raw : Type}
    (decBal : raw -> completion Z) (decUnd : raw -> completion string)
    (returnData : list raw) :
  forall ind infos,
    decodeTokenInfos decBal decUnd ind returnData = Return infos ->
    length infos = length returnData /\
    forall j info, infos !! j = Some info ->
      if decide ((ind + j) mod 2 = 0)%nat
      then exists b, info = InfoBalance b
      else exists u, info = InfoUnderlying u.
Proof.
  induction returnData as [| tokenRes rest IH]; intros ind infos Hdec.
  - injection Hdec as <-. split; [reflexivity |]. intros j info Hj.
    rewrite lookup_nil in Hj. discriminate.
  - cbn [decodeTokenInfos] in Hdec.
    destruct (decide (ind mod 2 = 0)%nat) as [Heven | Hodd].
    + destruct (decBal tokenRes) as [b |]; cbn in Hdec; [| discriminate].
      destruct (decodeTokenInfos decBal decUnd (S ind) rest) as [tl |] eqn:Htl;
        cbn in Hdec; [| discriminate].
      injection Hdec as <-. destruct (IH _ _ Htl) as (Hlen & Hshape).
      split; [simpl; congruence |].
      intros [| j] info Hj; simpl in Hj.
      * injection Hj as <-. rewrite Nat.add_0_r, decide_True by exact Heven. eauto.
      * specialize (Hshape j info Hj).
        replace (ind + S j)%nat with (S ind + j)%nat by lia. exact Hshape.
    + destruct (decUnd tokenRes) as [u |]; cbn in Hdec; [| discriminate].
      destruct (decodeTokenInfos decBal decUnd (S ind) rest) as [tl |] eqn:Htl;
        cbn in Hdec; [| discriminate].
      injection Hdec as <-. destruct (IH _ _ Htl) as (Hlen & Hshape).
      split; [simpl; congruence |].
      intros [| j] info Hj; simpl in Hj.
      * injection Hj as <-. rewrite Nat.add_0_r, decide_False by exact Hodd. eauto.
      * specialize (Hshape j info Hj).
        replace (ind + S j)%nat with (S ind + j)%nat by lia. exact Hshape.
Qed.

Lemma decodeTokenInfos_wellFormed {raw : Type}
    (decBal : raw -> completion Z) (decUnd : raw -> completion string)
    (returnData : list raw) (infos : list Info) :
  (length returnData mod 2 = 0)%nat ->
  decodeTokenInfos decBal decUnd 0 returnData = Return infos ->
  wellFormedInfos infos.
Proof.
  intros Hpairs Hdec.
  destruct (decodeTokenInfos_shape decBal decUnd returnData 0 infos Hdec)
    as (Hlen & Hshape).
  intros ii Hlt.
  destruct (lookup_lt_is_Some_2 infos ii Hlt) as (info & Hinfo).
  pose proof (Hshape ii info Hinfo) as Hii. rewrite Nat.add_0_l in Hii.
  destruct (decide (ii mod 2 = 0)%nat) as [Heven | Hodd].
  - destruct Hii as (b & ->). split; [eauto |].
    assert (Hnext : (ii + 1 < length infos)%nat).
    { rewrite Hlen in *. revert Hpairs Heven Hlt.
      generalize (length returnData). intros n.
      rewrite !Nat.Div0.mod_divides. intros (c & ->) (c' & ->). lia. }
    destruct (lookup_lt_is_Some_2 infos (ii + 1) Hnext) as (info' & Hinfo').
    pose proof (Hshape (ii + 1)%nat info' Hinfo') as Hnx.
    rewrite Nat.add_0_l in Hnx.
    rewrite decide_False in Hnx.
    + destruct Hnx as (u & ->). eauto.
    + revert Heven. rewrite !Nat.Div0.mod_divides.
      intros (c & ->) (c' & Hc'). lia.
  - destruct Hii as (u & ->). eauto.
Qed.

Lemma resolvePosition_returns mTokens tokenInfos :
  wellFormedInfos tokenInfos ->
  exists st, resolvePosition mTokens tokenInfos = Return st.
Proof.
  intros Hwf.
  destruct (for_loop_returns (fun _ _ => True) (length tokenInfos)
              (resolveStep mTokens tokenInfos) emptyPosition) as (st & Hst & _).
  - exact I.
  - intros ii s Hlt _. specialize (Hwf ii Hlt).
    unfold resolveStep. cbv zeta.
    destruct (decide (ii mod 2 = 0)%nat) as [Heven | Hodd].
    + destruct Hwf as ((b & ->) & (u & ->)).
      destruct (BigNumber.gt b 0); [| eauto].
      destruct (decide (ii < length mTokens * 2)%nat); eauto.
    + destruct Hwf as (u & ->).
      destruct (decide (ii < length mTokens * 2)%nat); [| eauto].
      destruct (findIndex _ _); eauto.
  - exists st. exact Hst.
Qed.

Lemma resolvePosition_invariant mTokens tokenInfos st :
  resolvePosition mTokens tokenInfos = Return st ->
  resolverInvariant mTokens tokenInfos (length tokenInfos) st.
Proof.
  apply for_loop_invariant.
  - repeat split; try constructor. intros; lia.
  - intros ii s s' _ (Hm & Hd & Hnd & Hreg) Hstep.
    destruct (resolveStep_holdings _ _ _ _ _ Hstep Hm Hd) as (Hm' & Hd').
    destruct (resolveStep_keys _ _ _ _ _ Hstep Hnd) as (Hnd' & Hmono & Hnew).
    repeat split; try assumption.
    intros jj u Hlt Hodd Hrange Hu.
    destruct (decide (jj = ii)) as [-> | Hne].
    + eapply Hnew; eassumption.
    + apply Hmono. eapply Hreg; try eassumption. lia.
Qed.

(** C5 as stated fails: a collateral wrapper whose balance is zero still
    contributes its underlying asset to [tokensWithUnderlying]. *)
Lemma zero_balance_wrapper_indexed_counterexample :
  ~ (forall st,
       resolvePosition ["0xM1"] [InfoBalance 0; InfoUnderlying "0xAbC"] = Return st ->
       mInfos st = [] /\ dInfos st = [] /\ tokensWithUnderlying st = []).
Proof.
  intros H.
  destruct (H {| mInfos := []; dInfos := [];
                 tokensWithUnderlying :=
                   [{| underlyingToken := "0xabc"; mtoken := "0xM1" |}] |}
              eq_refl) as (_ & _ & Hidx).
  discriminate Hidx.
Qed.

(** C5, amended.  On the decoded answer to the interleaved request list
    the decode step returns a position in which a wrapper whose balance
    is zero contributes no holding: every entry of [mInfos] and [dInfos]
    has a positive amount.  [tokensWithUnderlying] has no duplicate keys.
    Every collateral wrapper, whatever its balance (zero included), has
    its lower-cased underlying asset as a key of [tokensWithUnderlying]. *)
Theorem resolver_holdings_and_index (mTokens : list string)
    (tokenInfos : list Info) :
  wellFormedInfos tokenInfos ->
  exists st,
    resolvePosition mTokens tokenInfos = Return st /\
    Forall (fun h => 0 < amount h) (mInfos st) /\
    Forall (fun h => 0 < amount h) (dInfos st) /\
    NoDup (underlyingToken <$> tokensWithUnderlying st) /\
    (forall k b u, (k < length mTokens)%nat ->
       tokenInfos !! (2 * k)%nat = Some (InfoBalance b) ->
       tokenInfos !! (2 * k + 1)%nat = Some (InfoUnderlying u) ->
       toLowerCase u ∈ (underlyingToken <$> tokensWithUnderlying st)).
Proof.
  intros Hwf.
  destruct (resolvePosition_returns mTokens tokenInfos Hwf) as (st & Hrun).
  exists st. split; [exact Hrun |].
  destruct (resolvePosition_invariant _ _ _ Hrun) as (Hm & Hd & Hnd & Hreg).
  repeat split; try assumption.
  intros k b u Hk _ Hu.
  apply (Hreg (2 * k + 1)%nat u); try assumption.
  - apply lookup_lt_Some in Hu. exact Hu.
  - replace (2 * k + 1)%nat with (1 + k * 2)%nat by lia.
    rewrite Nat.Div0.mod_add. discriminate.
  - lia.
Qed.

Lemma resolver_holdings_and_index_witness :
  exists st,
    resolvePosition ["0xM1"; "0xM2"]
      [InfoBalance 0; InfoUnderlying "0xAbC";
       InfoBalance 5; InfoUnderlying "0xDEF";
       InfoBalance 7; InfoUnderlying "0xABC"] = Return st /\
    Forall (fun h => 0 < amount h) (mInfos st) /\
    "0xabc" ∈ (underlyingToken <$> tokensWithUnderlying st).
Proof.
  destruct (resolver_holdings_and_index
              ["0xM1"; "0xM2"]
              [InfoBalance 0; InfoUnderlying "0xAbC";
               InfoBalance 5; InfoUnderlying "0xDEF";
               InfoBalance 7; InfoUnderlying "0xABC"])
    as (st & Hrun & Hm & _ & _ & Hreg).
  - intros ii Hlt.
    do 6 (destruct ii as [| ii]; [vm_compute; eauto |]).
    simpl in Hlt. lia.
  - exists st. split; [exact Hrun |]. split; [exact Hm |].
    apply (Hreg 0%nat 0 "0xAbC"); [simpl; lia | reflexivity | reflexivity].
Defined.

(** ** Collateral selector *)

Arguments extractLiquidationBonus : simpl never.
Arguments extractUsageAsCollateralEnabled : simpl never.

Section SelectorFacts.
Variable chain : Chain.

Lemma getAssetPrice_value assetAddress poolAddress :
  getAssetPrice chain assetAddress poolAddress =
  Return (default 0 (oraclePriceRead chain poolAddress assetAddress)).
Proof.
  unfold getAssetPrice, getPriceOracleAddress, oraclePriceRead, await.
  destruct (pool_ADDRESSES_PROVIDER chain poolAddress) as [provider |];
    [| reflexivity].
  simpl. destruct (provider_getPriceOracle chain provider) as [oracle |];
    [| reflexivity].
  simpl. destruct (oracle_getAssetPrice chain oracle assetAddress);
    reflexivity.
Qed.

Lemma getTokenDecimals_value tokenAddress :
  getTokenDecimals chain tokenAddress =
  Return (default 18 (erc20_decimals chain tokenAddress)).
Proof.
  unfold getTokenDecimals, await.
  destruct (erc20_decimals chain tokenAddress); reflexivity.
Qed.

Lemma getReserveConfiguration_value poolAddress assetAddress :
  getReserveConfiguration chain poolAddress assetAddress =
  Return
    match pool_getReserveData chain poolAddress assetAddress with
    | Some data =>
        {| rc_liquidationBonus := extractLiquidationBonus data;
           rc_usageAsCollateralEnabled := extractUsageAsCollateralEnabled data |}
    | None =>
        {| rc_liquidationBonus := 0; rc_usageAsCollateralEnabled := false |}
    end.
Proof.
  unfold getReserveConfiguration, await.
  destruct (pool_getReserveData chain poolAddress assetAddress); reflexivity.
Qed.

Lemma collateralCandidates_from poolAddress mInfos acc :
  foldl
    (fun acc mInfo =>
       collateralCandidates ← acc;
       try_catch
         (candidate ← evaluateCollateral chain poolAddress mInfo;
          match candidate with
          | Some c => Return (collateralCandidates ++ [c])
          | None => Return collateralCandidates
          end)
         (fun error => Return collateralCandidates))
    (Return acc) mInfos
  = Return (acc ++ omap (candidateOf chain poolAddress) mInfos).
Proof.
  revert acc. induction mInfos as [| mInfo mInfos IH]; intros acc; simpl.
  - rewrite app_nil_r. reflexivity.
  - unfold candidateOf at 1.
    destruct (evaluateCollateral chain poolAddress mInfo) as [[c |] | e]; simpl.
    + rewrite IH, <- app_assoc. reflexivity.
    + apply IH.
    + apply IH.
Qed.

Lemma collateralCandidates_value poolAddress mInfos :
  collateralCandidates chain poolAddress mInfos =
  Return (omap (candidateOf chain poolAddress) mInfos).
Proof. apply collateralCandidates_from. Qed.

Lemma selectBestCollateralAsset_returns poolAddress mInfos :
  exists best, selectBestCollateralAsset chain poolAddress mInfos = Return best.
Proof.
  unfold selectBestCollateralAsset. rewrite collateralCandidates_value. simpl.
  set (cands := omap (candidateOf chain poolAddress) mInfos).
  destruct (decide (length cands = 0%nat)) as [| Hne]; [eauto |].
  destruct (array_sort compareValueDescending cands !! 0%nat) as [c |] eqn:Hhd;
    [eauto |].
  exfalso. apply lookup_ge_None in Hhd.
  pose proof (Permutation_length (array_sort_perm compareValueDescending cands)).
  lia.
Qed.

Lemma candidateOf_Some poolAddress mInfo c :
  candidateOf chain poolAddress mInfo = Some c ->
  exists data,
    pool_getReserveData chain poolAddress (token mInfo) = Some data /\
    extractUsageAsCollateralEnabled data = true /\
    address c = token mInfo /\ balance c = amount mInfo /\
    price c = default 0 (oraclePriceRead chain poolAddress (token mInfo)) /\
    decimals c = default 18 (erc20_decimals chain (token mInfo)).
Proof.
  unfold candidateOf, evaluateCollateral.
  rewrite getReserveConfiguration_value, getAssetPrice_value,
    getTokenDecimals_value. cbn.
  destruct (pool_getReserveData chain poolAddress (token mInfo)) as [data |];
    cbn; [| discriminate].
  destruct (extractUsageAsCollateralEnabled data) eqn:Hen; cbn;
    [| discriminate].
  unfold BigNumber.pow, BigNumber.div_checked.
  repeat (case_decide; cbn; try discriminate).
  intros [= <-]. exists data. cbn. auto 10.
Qed.

Lemma candidateOf_admits poolAddress mInfo data :
  pool_getReserveData chain poolAddress (token mInfo) = Some data ->
  extractUsageAsCollateralEnabled data = true ->
  0 <= default 18 (erc20_decimals chain (token mInfo)) ->
  exists c,
    candidateOf chain poolAddress mInfo = Some c /\
    address c = token mInfo /\ balance c = amount mInfo /\
    price c = default 0 (oraclePriceRead chain poolAddress (token mInfo)) /\
    decimals c = default 18 (erc20_decimals chain (token mInfo)) /\
    valueUSD c =
      Z.quot (Z.quot (price c * amount mInfo) (10 ^ decimals c)) (10 ^ 8).
Proof.
  intros Hdata Hen Hdec.
  unfold candidateOf, evaluateCollateral.
  rewrite getReserveConfiguration_value, getAssetPrice_value,
    getTokenDecimals_value. cbn.
  rewrite Hdata. cbn [rc_usageAsCollateralEnabled rc_liquidationBonus].
  rewrite Hen. cbn [negb].
  unfold BigNumber.pow, BigNumber.div_checked, BigNumber.from, oracleDecimals.
  repeat first
    [ rewrite decide_False by lia
    | rewrite decide_False by (apply Z.pow_nonzero; lia)
    | progress cbn [mbind completion_bind] ].
  eexists. split; [reflexivity |]. cbn. auto 10.
Qed.
End SelectorFacts.

(** C6 as stated fails: when the oracle's price read fails the asset is
    not excluded, it stays in the candidate list. *)
Lemma failed_price_lookup_admitted_counterexample :
  ~ (oraclePriceRead chainPriceFails "0xPool" "0xA" = None ->
     collateralCandidates chainPriceFails "0xPool"
       [{| token := "0xA"; amount := 5 |}] = Return []).
Proof.
  intros H. specialize (H eq_refl). vm_compute in H. discriminate H.
Qed.

(** C6, amended.  The selection never aborts.  A failed
    reserve-configuration read excludes the asset: every candidate's
    reserve read succeeded with the collateral flag set.  A failed price
    read does not exclude the asset: it is admitted with price 0 and
    valueUSD 0.  A failed decimals read does not exclude it either: it is
    admitted with decimals 18. *)
Theorem selector_lookup_failures (chain : Chain) (poolAddress : string)
    (mInfos : list Holding) :
  exists candidates best,
    collateralCandidates chain poolAddress mInfos = Return candidates /\
    selectBestCollateralAsset chain poolAddress mInfos = Return best /\
    (forall c, In c candidates ->
       exists data,
         pool_getReserveData chain poolAddress (address c) = Some data /\
         extractUsageAsCollateralEnabled data = true) /\
    (forall mInfo data,
       In mInfo mInfos ->
       pool_getReserveData chain poolAddress (token mInfo) = Some data ->
       extractUsageAsCollateralEnabled data = true ->
       (forall d, erc20_decimals chain (token mInfo) = Some d -> 0 <= d) ->
       exists c,
         In c candidates /\
         address c = token mInfo /\ balance c = amount mInfo /\
         (oraclePriceRead chain poolAddress (token mInfo) = None ->
          price c = 0 /\ valueUSD c = 0) /\
         (erc20_decimals chain (token mInfo) = None -> decimals c = 18)).
Proof.
  destruct (selectBestCollateralAsset_returns chain poolAddress mInfos)
    as (best & Hbest).
  exists (omap (candidateOf chain poolAddress) mInfos), best.
  split; [apply collateralCandidates_value |].
  split; [exact Hbest |].
  split.
  - intros c Hc. apply list_elem_of_In, list_elem_of_omap in Hc
      as (mInfo & _ & Hcand).
    apply candidateOf_Some in Hcand as (data & Hdata & Hen & Haddr & _).
    exists data. rewrite Haddr. split; assumption.
  - intros mInfo data Hin Hdata Hen Hdec.
    destruct (candidateOf_admits chain poolAddress mInfo data Hdata Hen)
      as (c & Hcand & Haddr & Hbal & Hprice & Hdecs & Hval).
    { destruct (erc20_decimals chain (token mInfo)) as [d |] eqn:Hd; simpl;
        [apply Hdec; reflexivity | lia]. }
    exists c. split.
    { apply list_elem_of_In, list_elem_of_omap. exists mInfo.
      split; [apply list_elem_of_In; exact Hin | exact Hcand]. }
    assert (Hd18 : 0 <= default 18 (erc20_decimals chain (token mInfo))).
    { destruct (erc20_decimals chain (token mInfo)) as [d |] eqn:Hd; simpl;
        [apply Hdec; reflexivity | lia]. }
    split; [exact Haddr |]. split; [exact Hbal |]. split.
    + intros Hfail. rewrite Hfail in Hprice. simpl in Hprice.
      split; [exact Hprice |].
      rewrite Hval, Hprice, Hdecs. rewrite Z.mul_0_l.
      rewrite !Z.quot_0_l by (apply Z.pow_nonzero; lia).
      reflexivity.
    + intros Hfail. rewrite Hfail in Hdecs. exact Hdecs.
Qed.

Lemma selector_lookup_failures_witness :
  exists c,
    collateralCandidates chainPriceFails "0xPool"
      [{| token := "0xA"; amount := 5 |}] = Return [c] /\
    address c = "0xA" /\ price c = 0 /\ valueUSD c = 0.
Proof.
  destruct (selector_lookup_failures chainPriceFails "0xPool"
              [{| token := "0xA"; amount := 5 |}])
    as (candidates & best & Hc & _ & _ & Hadmit).
  destruct (Hadmit {| token := "0xA"; amount := 5 |} (2 ^ 56))
    as (c & _ & Haddr & _ & Hprice & _).
  - left. reflexivity.
  - reflexivity.
  - vm_compute. reflexivity.
  - intros d [= <-]. lia.
  - destruct (Hprice eq_refl) as (Hp & Hv).
    eexists. split; [vm_compute; reflexivity |].
    vm_compute. auto.
Defined.

(** ** Swap route aggregator *)

Lemma slippage_le (x bps : Z) :
  0 <= x -> 0 <= bps <= 1000 -> Z.quot (x * bps) 1000 <= x.
Proof.
  intros Hx Hb. rewrite Z.quot_div_nonneg by lia.
  apply Z.div_le_upper_bound; nia.
Qed.

Section RouterFacts.
Variable venues : Venues.
Variable contracts : Contracts.

Variable isAddress : string -> bool.

Lemma encodeAddressArray_pair a b :
  isAddress a = true -> isAddress b = true ->
  encodeAddressArray isAddress [a; b] = Return (AbiAddressArray [a; b]).
Proof.
  intros Ha Hb. unfold encodeAddressArray. cbn [forallb].
  rewrite Ha, Hb. reflexivity.
Qed.

Lemma encodeAddressArray_pair_invalid a b :
  isAddress a = false \/ isAddress b = false ->
  encodeAddressArray isAddress [a; b] = Throw (Error "invalid address").
Proof.
  intros [Ha | Hb]; unfold encodeAddressArray; cbn [forallb].
  - rewrite Ha. reflexivity.
  - rewrite Hb. destruct (isAddress a); reflexivity.
Qed.

Lemma defaultSwapParams_value tokenIn tokenOut amountIn :
  isAddress tokenIn = true -> isAddress tokenOut = true ->
  defaultSwapParams contracts isAddress tokenIn tokenOut amountIn =
  Return (defaultLeg contracts tokenIn tokenOut amountIn).
Proof.
  intros Hin Hout. unfold defaultSwapParams.
  rewrite (encodeAddressArray_pair _ _ Hin Hout). reflexivity.
Qed.

Lemma defaultSwapParams_invalid tokenIn tokenOut amountIn :
  isAddress tokenIn = false \/ isAddress tokenOut = false ->
  defaultSwapParams contracts isAddress tokenIn tokenOut amountIn =
  Throw (Error "invalid address").
Proof.
  intros Hbad. unfold defaultSwapParams.
  rewrite (encodeAddressArray_pair_invalid _ _ Hbad). reflexivity.
Qed.

(** The v2 adapter, route by route: both routes encode the same path, so
    a string that is not an address sends both to the outer handler. *)
Lemma getV2Quote_value tokenIn tokenOut amountIn :
  getV2Quote venues contracts isAddress tokenIn tokenOut amountIn =
  if isAddress tokenIn && isAddress tokenOut
  then Return (QQuote
         {| swapType := UNISWAP_V2;
            router := punch_router contracts;
            path := AbiAddressArray [tokenIn; tokenOut];
            amountIn := amountIn;
            amountOut := Some (v2QuotedOutput venues tokenIn tokenOut amountIn);
            amountOutMin :=
              Z.quot (v2QuotedOutput venues tokenIn tokenOut amountIn * 995) 1000;
            adapters := [] |})
  else Return QNull.
Proof.
  unfold getV2Quote, v2QuotedOutput, await.
  destruct (isAddress tokenIn) eqn:Hin, (isAddress tokenOut) eqn:Hout;
    cbn [andb].
  - rewrite (encodeAddressArray_pair _ _ Hin Hout).
    destruct (v2Router_getAmountsOut venues amountIn [tokenIn; tokenOut])
      as [[| a0 [| a1 amounts]] |]; try reflexivity.
    cbn [mbind completion_bind try_catch].
    rewrite decide_True by (simpl; lia).
    destruct (last (a0 :: a1 :: amounts)) as [out |] eqn:Hlast; reflexivity.
  - rewrite (encodeAddressArray_pair_invalid tokenIn tokenOut) by (right; exact Hout).
    destruct (v2Router_getAmountsOut venues amountIn [tokenIn; tokenOut])
      as [[| a0 [| a1 amounts]] |]; try reflexivity.
    cbn [mbind completion_bind try_catch].
    rewrite decide_True by (simpl; lia).
    destruct (last (a0 :: a1 :: amounts)) as [out |] eqn:Hlast; reflexivity.
  - rewrite (encodeAddressArray_pair_invalid tokenIn tokenOut) by (left; exact Hin).
    destruct (v2Router_getAmountsOut venues amountIn [tokenIn; tokenOut])
      as [[| a0 [| a1 amounts]] |]; try reflexivity.
    cbn [mbind completion_bind try_catch].
    rewrite decide_True by (simpl; lia).
    destruct (last (a0 :: a1 :: amounts)) as [out |] eqn:Hlast; reflexivity.
  - rewrite (encodeAddressArray_pair_invalid tokenIn tokenOut) by (left; exact Hin).
    destruct (v2Router_getAmountsOut venues amountIn [tokenIn; tokenOut])
      as [[| a0 [| a1 amounts]] |]; try reflexivity.
    cbn [mbind completion_bind try_catch].
    rewrite decide_True by (simpl; lia).
    destruct (last (a0 :: a1 :: amounts)) as [out |] eqn:Hlast; reflexivity.
Qed.

Lemma v2QuotedOutput_source tokenIn tokenOut amountIn :
  v2QuotedOutput venues tokenIn tokenOut amountIn = Z.quot (amountIn * 987) 1000 \/
  exists amounts,
    v2Router_getAmountsOut venues amountIn [tokenIn; tokenOut] = Some amounts /\
    last amounts = Some (v2QuotedOutput venues tokenIn tokenOut amountIn).
Proof.
  unfold v2QuotedOutput.
  destruct (v2Router_getAmountsOut venues amountIn [tokenIn; tokenOut])
    as [[| a0 [| a1 amounts]] |]; auto.
  destruct (last (a0 :: a1 :: amounts)) as [out |] eqn:Hlast; cbn [default]; auto.
  right. eexists. split; [reflexivity | exact Hlast].
Qed.

Lemma tryFeeTier_returns tokenIn tokenOut amountIn best fee :
  exists best', tryFeeTier venues tokenIn tokenOut amountIn best fee = Return best'.
Proof.
  unfold tryFeeTier, await.
  destruct (v3Quoter_quoteExactInput venues _ amountIn); cbn; [| eauto].
  destruct (BigNumber.gt _ _); eauto.
Qed.

Lemma getV3Quote_result tokenIn tokenOut amountIn :
  getV3Quote venues contracts tokenIn tokenOut amountIn = Return QNull \/
  exists q out,
    getV3Quote venues contracts tokenIn tokenOut amountIn = Return (QQuote q) /\
    amountOut q = Some out /\ 0 < out /\
    amountOutMin q = Z.quot (out * 995) 1000.
Proof.
  unfold getV3Quote, feeTiers. cbn [foldl mbind completion_bind].
  repeat match goal with
  | |- context [tryFeeTier venues ?i ?o ?a ?b ?f] =>
      let best' := fresh "best" in
      let H := fresh "Hbest" in
      destruct (tryFeeTier_returns i o a b f) as (best' & H);
      rewrite H; cbn [mbind completion_bind]
  end.
  destruct (bestPath _) as [p |]; cbn; [| auto].
  destruct (BigNumber.gt _ 0) eqn:Hgt; cbn; [| auto].
  right. eexists _, _. split; [reflexivity |]. cbn.
  unfold BigNumber.gt in Hgt. apply bool_decide_eq_true in Hgt.
  repeat split; lia.
Qed.

Lemma getAgroKittyQuote_result tokenIn tokenOut amountIn adapters :
  getAgroKittyQuote venues contracts tokenIn tokenOut amountIn adapters
    = Return QUndefined \/
  exists q offer out,
    getAgroKittyQuote venues contracts tokenIn tokenOut amountIn adapters
      = Return (QQuote q) /\
    agroKittyRouter_findBestPath venues amountIn tokenIn tokenOut 4 = Some offer /\
    last (offer_amounts offer) = Some out /\ 0 < out /\
    amountOut q = None /\
    amountOutMin q = Z.quot (out * 990) 1000.
Proof.
  unfold getAgroKittyQuote, await.
  destruct (agroKittyRouter_findBestPath venues amountIn tokenIn tokenOut 4)
    as [offer |] eqn:Hread; cbn; [| auto].
  destruct (last (offer_amounts offer)) as [out |] eqn:Hlast; cbn; [| auto].
  destruct (BigNumber.gt out 0) eqn:Hgt; cbn; [| auto].
  right. eexists _, offer, out. split; [reflexivity |].
  unfold BigNumber.gt in Hgt. apply bool_decide_eq_true in Hgt.
  cbn. repeat split; auto; lia.
Qed.

Lemma selectBestQuote_single r :
  selectBestQuote [r] =
  match r with
  | QNull => Return QNull
  | QUndefined => Throw (TypeError "bestQuote.amountOutMin")
  | QQuote q => Return (QQuote q)
  end.
Proof. destruct r; reflexivity. Qed.
End RouterFacts.

(** C7 as stated fails: with the constant-product venue the only one that
    succeeds, [getBestQuote] does not return that venue's quote; it never
    asks the v2 and v3 adapters. *)
Lemma single_v2_quote_not_returned_counterexample :
  ~ (forall q,
       getV2Quote venuesV2Only contractsExample isSingleCaseAddress addressA addressB 1000 = Return (QQuote q) ->
       getV3Quote venuesV2Only contractsExample addressA addressB 1000 = Return QNull ->
       (forall q', getAgroKittyQuote venuesV2Only contractsExample addressA addressB 1000 []
                   <> Return (QQuote q')) ->
       getBestQuote venuesV2Only contractsExample addressA addressB 1000 = Return (QQuote q)).
Proof.
  intros H.
  specialize (H _ eq_refl eq_refl).
  assert (Hagro : forall q',
            getAgroKittyQuote venuesV2Only contractsExample addressA addressB 1000 []
            <> Return (QQuote q')) by (intros q'; discriminate).
  specialize (H Hagro). discriminate H.
Qed.

(** C7, amended.  [getBestQuote] queries the aggregator-style venue only:
    its result is the same under any two environments that agree on that
    venue.  It returns null if and only if the aggregator adapter returned
    null, and when the adapter returns a quote object that object is
    returned unmodified. *)
Theorem getBestQuote_aggregator_only (venues venues' : Venues)
    (contracts : Contracts) (tokenIn tokenOut : string) (amountIn : Z) :
  (forall a i o n,
     agroKittyRouter_findBestPath venues a i o n =
     agroKittyRouter_findBestPath venues' a i o n) ->
  getBestQuote venues contracts tokenIn tokenOut amountIn =
    getBestQuote venues' contracts tokenIn tokenOut amountIn /\
  (exists r,
     getAgroKittyQuote venues contracts tokenIn tokenOut amountIn [] = Return r /\
     getBestQuote venues contracts tokenIn tokenOut amountIn = selectBestQuote [r]) /\
  (forall r, selectBestQuote [r] = Return QNull <-> r = QNull) /\
  (forall q, selectBestQuote [QQuote q] = Return (QQuote q)) /\
  (getBestQuote venues contracts tokenIn tokenOut amountIn = Return QNull <->
   getAgroKittyQuote venues contracts tokenIn tokenOut amountIn [] = Return QNull) /\
  (forall q,
     getAgroKittyQuote venues contracts tokenIn tokenOut amountIn [] = Return (QQuote q) ->
     getBestQuote venues contracts tokenIn tokenOut amountIn = Return (QQuote q)).
Proof.
  intros Hagree.
  assert (Hsingle : forall r, selectBestQuote [r] = Return QNull <-> r = QNull).
  { intros r. rewrite selectBestQuote_single.
    destruct r; split; intros; congruence. }
  split.
  { unfold getBestQuote, getAgroKittyQuote. rewrite Hagree. reflexivity. }
  split.
  { unfold getBestQuote.
    destruct (getAgroKittyQuote_result venues contracts tokenIn tokenOut amountIn [])
      as [Hu | (q & offer & out & Hq & _)].
    - rewrite Hu. eauto.
    - rewrite Hq. eauto. }
  split; [exact Hsingle |].
  split; [intros q; apply selectBestQuote_single |].
  split.
  - unfold getBestQuote.
    destruct (getAgroKittyQuote venues contracts tokenIn tokenOut amountIn [])
      as [r | e]; cbn [mbind completion_bind].
    + rewrite Hsingle. split; congruence.
    + split; discriminate.
  - intros q Hq. unfold getBestQuote. rewrite Hq. reflexivity.
Qed.

Lemma getBestQuote_aggregator_only_witness :
  getBestQuote venuesAgroOnly contractsExample addressA addressB 1000 =
  getBestQuote
    {| v2Router_getAmountsOut := fun amountIn _ => Some [amountIn; 990];
       v3Quoter_quoteExactInput := fun _ _ => Some 5000;
       agroKittyRouter_findBestPath := agroKittyRouter_findBestPath venuesAgroOnly |}
    contractsExample addressA addressB 1000.
Proof.
  apply (getBestQuote_aggregator_only venuesAgroOnly).
  intros a i o n. reflexivity.
Defined.

(** C8 as stated fails: the quote object built by [getAgroKittyQuote]
    carries [amountOutMin] but no [amountOut]. *)
Lemma agrokitty_quote_without_amountOut_counterexample :
  ~ (forall q,
       getAgroKittyQuote venuesAgroOnly contractsExample addressA addressB 1000 []
         = Return (QQuote q) ->
       exists out, amountOut q = Some out /\ amountOutMin q <= out).
Proof.
  intros H. destruct (H _ eq_refl) as (out & Hout & _). discriminate Hout.
Qed.

(** C8, amended.  With a non-negative input amount and venues that report
    unsigned amounts: every quote of the v2 and v3 adapters carries both
    [amountOut] and [amountOutMin] = amountOut * 995 / 1000, which never
    exceeds [amountOut].  A quote of the aggregator adapter carries
    [amountOutMin] only, equal to 990 / 1000 of the positive final amount
    the venue reported and never above it; it has no [amountOut] field. *)
Theorem adapter_quotes_min_le_out (venues : Venues) (contracts : Contracts)
    (isAddress : string -> bool)
    (tokenIn tokenOut : string) (amountIn : Z) (adapters : list string) :
  0 <= amountIn ->
  (forall path amounts,
     v2Router_getAmountsOut venues amountIn path = Some amounts ->
     Forall (fun x => 0 <= x) amounts) ->
  (forall q,
     getV2Quote venues contracts isAddress tokenIn tokenOut amountIn
       = Return (QQuote q) ->
     exists out,
       amountOut q = Some out /\
       amountOutMin q = Z.quot (out * 995) 1000 /\
       amountOutMin q <= out) /\
  (forall q,
     getV3Quote venues contracts tokenIn tokenOut amountIn = Return (QQuote q) ->
     exists out,
       amountOut q = Some out /\
       amountOutMin q = Z.quot (out * 995) 1000 /\
       amountOutMin q <= out) /\
  (forall q,
     getAgroKittyQuote venues contracts tokenIn tokenOut amountIn adapters
       = Return (QQuote q) ->
     amountOut q = None /\
     exists offer out,
       agroKittyRouter_findBestPath venues amountIn tokenIn tokenOut 4 = Some offer /\
       last (offer_amounts offer) = Some out /\ 0 < out /\
       amountOutMin q = Z.quot (out * 990) 1000 /\
       amountOutMin q <= out).
Proof.
  intros Hin Hunsigned. split; [| split].
  - intros q Hq. rewrite getV2Quote_value in Hq.
    destruct (isAddress tokenIn && isAddress tokenOut); [| discriminate Hq].
    injection Hq as <-. cbn [amountOut amountOutMin].
    eexists. split; [reflexivity |]. split; [reflexivity |].
    apply slippage_le; [| lia].
    destruct (v2QuotedOutput_source venues tokenIn tokenOut amountIn)
      as [-> | (amounts & Hread & Hlast)].
    + apply Z.quot_pos; lia.
    + specialize (Hunsigned _ _ Hread). rewrite Forall_forall in Hunsigned.
      apply Hunsigned. apply last_Some_elem_of. exact Hlast.
  - intros q Hq.
    destruct (getV3Quote_result venues contracts tokenIn tokenOut amountIn)
      as [Hnull | (q' & out & Hq' & Hout & Hpos & Hmin)]; [congruence |].
    assert (q' = q) as -> by congruence.
    exists out. repeat split; try assumption.
    rewrite Hmin. apply slippage_le; lia.
  - intros q Hq.
    destruct (getAgroKittyQuote_result venues contracts tokenIn tokenOut amountIn adapters)
      as [Hu | (q' & offer & out & Hq' & Hread & Hlast & Hpos & Hnone & Hmin)];
      [congruence |].
    assert (q' = q) as -> by congruence.
    split; [exact Hnone |].
    exists offer, out. repeat split; try assumption.
    rewrite Hmin. apply slippage_le; lia.
Qed.

Lemma adapter_quotes_min_le_out_witness :
  exists q out,
    getV2Quote venuesV2Only contractsExample isSingleCaseAddress
      addressA addressB 1000 = Return (QQuote q) /\
    amountOut q = Some out /\ amountOutMin q <= out.
Proof.
  destruct (adapter_quotes_min_le_out venuesV2Only contractsExample
              isSingleCaseAddress addressA addressB 1000 [])
    as (Hv2 & _).
  - lia.
  - intros path amounts [= <-]. repeat constructor; lia.
  - eexists.
    destruct (Hv2 {| swapType := UNISWAP_V2; router := "0xPunch";
                     path := AbiAddressArray [addressA; addressB];
                     amountIn := 1000; amountOut := Some 990;
                     amountOutMin := 985; adapters := [] |} eq_refl)
      as (out & Hout & _ & Hle).
    exists out. split; [reflexivity |]. split; [exact Hout | exact Hle].
Defined.

Lemma getBestQuote_cases venues contracts tokenIn tokenOut amountIn :
  getBestQuote venues contracts tokenIn tokenOut amountIn
    = Throw (TypeError "bestQuote.amountOutMin") \/
  exists q,
    getBestQuote venues contracts tokenIn tokenOut amountIn = Return (QQuote q).
Proof.
  unfold getBestQuote.
  destruct (getAgroKittyQuote_result venues contracts tokenIn tokenOut amountIn [])
    as [Hu | (q & offer & out & Hq & _)].
  - rewrite Hu. left. reflexivity.
  - rewrite Hq. right. exists q. reflexivity.
Qed.

(** C10 as stated fails: the catch handler encodes the two default paths
    itself.  With a collateral string that is not an address and no route
    for it, the quoting fails, the handler's encoding fails in turn, and
    the exception leaves the function. *)
Lemma getLiquidationSwapParams_throws_counterexample :
  ~ (exists result,
       getLiquidationSwapParams venuesV2Only contractsExample isSingleCaseAddress
         "0xA" addressD 1000 addressWFLOW = Return result).
Proof. intros (result & Hrun). discriminate Hrun. Qed.

(** C10, amended.  When the collateral asset, the debt asset and the
    settlement asset are addresses, [getLiquidationSwapParams] returns a
    parameter pair: it never returns null and never lets an exception
    out.  When the repay quote is unavailable the repay leg is the
    default parameter object with [amountOutMin] = 0 (and so is the
    receiver leg's minimum).  When the debt asset is not the settlement
    asset the receiver leg is either a default object with
    [amountOutMin] = 0 or the quote obtained for the repay leg's minimum
    output.  When the debt asset is the settlement asset the receiver leg
    is the pass-through object on the v2 router, with [amountIn] and
    [amountOutMin] equal to the repay leg's [amountOutMin]. *)
Theorem getLiquidationSwapParams_total_on_addresses
    (venues : Venues) (contracts : Contracts) (isAddress : string -> bool)
    (collateralAsset debtAsset : string) (collateralAmount : Z)
    (wflowAddress : string) :
  isAddress collateralAsset = true ->
  isAddress debtAsset = true ->
  isAddress wflowAddress = true ->
  exists result,
    getLiquidationSwapParams venues contracts isAddress collateralAsset debtAsset
      collateralAmount wflowAddress = Return result /\
    (sParamsToRepayLoan result =
       defaultLeg contracts collateralAsset debtAsset collateralAmount \/
     getBestQuote venues contracts collateralAsset debtAsset collateralAmount
       = Return (QQuote (sParamsToRepayLoan result))) /\
    ((forall q,
        getBestQuote venues contracts collateralAsset debtAsset collateralAmount
        <> Return (QQuote q)) ->
     sParamsToRepayLoan result =
       defaultLeg contracts collateralAsset debtAsset collateralAmount /\
     amountOutMin (sParamsToRepayLoan result) = 0 /\
     amountOutMin (sParamsToSendToReceiver result) = 0) /\
    (toLowerCase debtAsset <> toLowerCase wflowAddress ->
     (sParamsToSendToReceiver result =
        defaultLeg contracts debtAsset wflowAddress
          (amountIn (sParamsToSendToReceiver result)) /\
      amountOutMin (sParamsToSendToReceiver result) = 0) \/
     getBestQuote venues contracts debtAsset wflowAddress
       (amountOutMin (sParamsToRepayLoan result))
       = Return (QQuote (sParamsToSendToReceiver result))) /\
    (toLowerCase debtAsset = toLowerCase wflowAddress ->
     sParamsToSendToReceiver result =
       {| swapType := UNISWAP_V2;
          router := punch_router contracts;
          path := AbiAddressArray [debtAsset; wflowAddress];
          amountIn := amountOutMin (sParamsToRepayLoan result);
          amountOut := None;
          amountOutMin := amountOutMin (sParamsToRepayLoan result);
          adapters := [] |}).
Proof.
  intros Hc Hd Hw.
  pose proof (fun amt => defaultSwapParams_value contracts isAddress
                           collateralAsset debtAsset amt Hc Hd) as Hrepay.
  pose proof (fun amt => defaultSwapParams_value contracts isAddress
                           debtAsset wflowAddress amt Hd Hw) as Hrecv.
  unfold getLiquidationSwapParams, string_eqb.
  destruct (getBestQuote_cases venues contracts collateralAsset debtAsset collateralAmount)
    as [HR | (q & HR)]; rewrite HR; cbn [mbind completion_bind try_catch].
  - (* the repay quote failed with an error: the catch-all defaults *)
    rewrite Hrepay, Hrecv. cbn [mbind completion_bind].
    eexists. split; [reflexivity |]. cbn.
    repeat split; auto.
  - cbn [amountOutMinOrZero quoteOr].
    destruct (decide (toLowerCase debtAsset = toLowerCase wflowAddress))
      as [Hsame | Hdiff].
    + rewrite bool_decide_eq_true_2 by exact Hsame.
      rewrite (encodeAddressArray_pair isAddress _ _ Hd Hw).
      cbn [mbind completion_bind try_catch quoteOr].
      eexists. split; [reflexivity |]. cbn.
      split; [right; reflexivity |].
      split; [intros Hno; destruct (Hno q eq_refl) |].
      split; [intros Hne; destruct (Hne Hsame) | reflexivity].
    + rewrite bool_decide_eq_false_2 by exact Hdiff.
      destruct (BigNumber.gt (amountOutMin q) 0) eqn:Hgt.
      * destruct (getBestQuote_cases venues contracts debtAsset wflowAddress (amountOutMin q))
          as [HR2 | (q2 & HR2)]; rewrite HR2;
          cbn [mbind completion_bind try_catch quoteOr].
        -- rewrite Hrepay, Hrecv. cbn [mbind completion_bind].
           eexists. split; [reflexivity |]. cbn.
           split; [left; reflexivity |].
           split; [auto |].
           split; [intros _; left; split; reflexivity |].
           intros Hsame. destruct (Hdiff Hsame).
        -- eexists. split; [reflexivity |]. cbn.
           split; [right; reflexivity |].
           split; [intros Hno; destruct (Hno q eq_refl) |].
           split; [intros _; right; exact HR2 |].
           intros Hsame. destruct (Hdiff Hsame).
      * cbn [mbind completion_bind try_catch quoteOr].
        rewrite Hrecv. cbn [mbind completion_bind try_catch].
        eexists. split; [reflexivity |]. cbn.
        split; [right; reflexivity |].
        split; [intros Hno; destruct (Hno q eq_refl) |].
        split; [intros _; left; split; reflexivity |].
        intros Hsame. destruct (Hdiff Hsame).
Qed.

Lemma getLiquidationSwapParams_total_on_addresses_witness :
  exists result,
    getLiquidationSwapParams venuesAgroOnly contractsExample isSingleCaseAddress
      addressA addressWFLOW_lower 1000 addressWFLOW = Return result /\
    amountOutMin (sParamsToRepayLoan result) = 1980 /\
    amountOutMin (sParamsToSendToReceiver result) = 1980.
Proof.
  destruct (getLiquidationSwapParams_total_on_addresses venuesAgroOnly
              contractsExample isSingleCaseAddress
              addressA addressWFLOW_lower 1000 addressWFLOW)
    as (result & Hrun & _ & _ & _ & Hpass).
  - reflexivity.
  - reflexivity.
  - reflexivity.
  - exists result. split; [exact Hrun |].
    specialize (Hpass eq_refl).
    assert (Hrepay : amountOutMin (sParamsToRepayLoan result) = 1980).
    { vm_compute in Hrun. injection Hrun as <-. reflexivity. }
    split; [exact Hrepay |].
    rewrite Hpass. exact Hrepay.
Defined.

(** ** Execution *)

Lemma sizeDebtToCover_index_zero_liquidity d :
  0 < d -> sizeDebtToCover_index d 0 = {| checkedBal := 0; cover := 0 |}.
Proof.
  intros Hd. unfold sizeDebtToCover_index, BigNumber.gt.
  rewrite bool_decide_eq_true_2 by lia. reflexivity.
Qed.

(** C4 as stated fails: with no liquidity in the debt wrapper, [index.js]
    still submits the liquidation, with a covered amount of zero. *)
Lemma zero_liquidity_submitted_counterexample :
  ~ (erc20_balanceOf chainNoLiquidity "0xD" "0xMD" = Some 0 ->
     forall lParam,
       liquidate_index chainNoLiquidity borrowerExample positionExample
         = Return (Submitted lParam) ->
       lp_amount lParam <> 0).
Proof.
  intros H.
  apply (H eq_refl
           {| lp_collateralAsset := "0xC"; lp_debtAsset := "0xD";
              lp_user := "0xBorrower"; lp_amount := 0;
              lp_transferAmount := 0; lp_debtToCover := 0 |});
    reflexivity.
Qed.

(** C4, amended.  For a borrower with collateral and debt holdings whose
    debt wrapper is found in the underlying index and holds zero available
    liquidity, [index.js] does not short-circuit: it submits the
    liquidation of the first collateral and the first debt holding with
    amount 0 and debtToCover 0. *)
Theorem zero_liquidity_not_short_circuited
    (chain : Chain) (unhealthyUser : HealthRecord) (st : Position)
    (m0 d0 : Holding) (ms ds : list Holding) (debtMToken : UnderlyingEntry) :
  mInfos st = m0 :: ms ->
  dInfos st = d0 :: ds ->
  0 < amount d0 ->
  findDebtMToken (token d0) (tokensWithUnderlying st) = Some debtMToken ->
  erc20_balanceOf chain (token d0) (mtoken debtMToken) = Some 0 ->
  liquidate_index chain unhealthyUser st =
    Return (Submitted
      {| lp_collateralAsset := token m0;
         lp_debtAsset := token d0;
         lp_user := user unhealthyUser;
         lp_amount := 0;
         lp_transferAmount := 0;
         lp_debtToCover := 0 |}).
Proof.
  intros Hm Hd Hpos Hfind Hbal.
  rewrite (liquidate_index_submits _ _ _ _ _ _ _ _ _ Hm Hd Hfind Hbal).
  rewrite sizeDebtToCover_index_zero_liquidity by exact Hpos. reflexivity.
Qed.

Lemma zero_liquidity_not_short_circuited_witness :
  liquidate_index chainNoLiquidity borrowerExample positionExample =
    Return (Submitted
      {| lp_collateralAsset := "0xC"; lp_debtAsset := "0xD";
         lp_user := "0xBorrower"; lp_amount := 0;
         lp_transferAmount := 0; lp_debtToCover := 0 |}).
Proof.
  apply (zero_liquidity_not_short_circuited
           chainNoLiquidity borrowerExample positionExample
           {| token := "0xC"; amount := 10 |}
           {| token := "0xD"; amount := 1000 |} [] []
           {| underlyingToken := "0xd"; mtoken := "0xMD" |}).
  - reflexivity.
  - reflexivity.
  - simpl. lia.
  - reflexivity.
  - reflexivity.
Defined.

(* ================================================================== *)
(** * Part III: further properties of the code *)
(* ================================================================== *)

(** ** Sizing *)

(** X1.  For a non-negative debt balance, the close-factor amount lies
    between 0 and the debt, grows with the debt, and does not grow with
    the health factor. *)
Theorem calculateDebtToCover_monotone (h h' d d' : Z) :
  0 <= d <= d' -> h <= h' ->
  0 <= calculateDebtToCover h' d /\
  calculateDebtToCover h' d <= calculateDebtToCover h d /\
  calculateDebtToCover h d <= calculateDebtToCover h d' /\
  calculateDebtToCover h d' <= d'.
Proof.
  intros Hd Hh.
  pose proof (closeFactor_amount_le h' d ltac:(lia)) as H1.
  pose proof (closeFactor_amount_le h d' ltac:(lia)) as H2.
  split; [lia |]. split; [| split; [| lia]].
  - rewrite !calculateDebtToCover_spec. unfold spec_closeFactorBps.
    destruct (decide (h' < 95 * 10 ^ 16)), (decide (h < 95 * 10 ^ 16));
      try lia; rewrite !Z.quot_div_nonneg by lia;
      apply Z.div_le_mono; lia.
  - rewrite !calculateDebtToCover_spec. unfold spec_closeFactorBps.
    destruct (decide (h < 95 * 10 ^ 16));
      rewrite !Z.quot_div_nonneg by lia; apply Z.div_le_mono; lia.
Qed.

Lemma calculateDebtToCover_monotone_witness :
  calculateDebtToCover (97 * 10 ^ 16) 1000 <= calculateDebtToCover (9 * 10 ^ 17) 1000.
Proof.
  apply (calculateDebtToCover_monotone (9 * 10 ^ 17) (97 * 10 ^ 16) 1000 1000); lia.
Defined.

(** X3.  The sizing of [index.js] covers min(debt, liquidity); for a
    uint256 debt its [debtToCover] is the sentinel exactly when the debt
    fits in the liquidity and the liquidity itself otherwise. *)
Theorem sizeDebtToCover_index_min (d a : Z) :
  0 <= d <= constants.MaxUint256 ->
  let s := sizeDebtToCover_index d a in
  checkedBal s = Z.min d a /\
  (cover s = constants.MaxUint256 <-> d <= a) /\
  (a < d -> cover s = a).
Proof.
  intros Hd. cbv zeta. unfold sizeDebtToCover_index, BigNumber.gt.
  case_bool_decide; cbn [checkedBal cover]; repeat split; lia.
Qed.

Lemma sizeDebtToCover_index_min_witness :
  checkedBal (sizeDebtToCover_index 1000 400) = 400 /\
  cover (sizeDebtToCover_index 1000 400) = 400.
Proof.
  destruct (sizeDebtToCover_index_min 1000 400) as (Hb & _ & Hc).
  - vm_compute. split; discriminate.
  - split; [exact Hb | apply Hc; lia].
Defined.

(** ** Reserve configuration word *)

Lemma extractLiquidationBonus_div (data : Z) :
  0 <= data -> extractLiquidationBonus data = (data / 2 ^ 32) mod 2 ^ 16.
Proof.
  intros Hd. unfold extractLiquidationBonus, BigNumber.and, BigNumber.shr,
    BigNumber.from. cbv zeta.
  change 65535 with (Z.ones 16).
  rewrite Z.land_ones by lia. rewrite Z.shiftr_div_pow2 by lia. reflexivity.
Qed.

Lemma extractUsageAsCollateralEnabled_div (data : Z) :
  0 <= data ->
  extractUsageAsCollateralEnabled data = bool_decide ((data / 2 ^ 56) mod 2 = 1).
Proof.
  intros Hd. unfold extractUsageAsCollateralEnabled, BigNumber.and,
    BigNumber.shr, BigNumber.eq, BigNumber.from. cbv zeta.
  assert (E : Z.land (Z.shiftr data 56) 1 = (data / 2 ^ 56) mod 2).
  { rewrite <- Z.shiftr_div_pow2 by lia.
    exact (Z.land_ones (Z.shiftr data 56) 1 ltac:(lia)). }
  rewrite E. reflexivity.
Qed.

(** X4.  The decoders read the liquidation bonus from bits 32..47 and the
    collateral flag from bit 56 of the packed word, whatever the other
    bits hold; the bonus is always below 2^16. *)
Theorem reserve_configuration_layout (lo b mid f hi : Z) :
  0 <= lo < 2 ^ 32 -> 0 <= b < 2 ^ 16 -> 0 <= mid < 2 ^ 8 ->
  0 <= f <= 1 -> 0 <= hi ->
  let data := lo + b * 2 ^ 32 + mid * 2 ^ 48 + f * 2 ^ 56 + hi * 2 ^ 57 in
  extractLiquidationBonus data = b /\
  extractUsageAsCollateralEnabled data = bool_decide (f = 1) /\
  extractUsageAsCollateralEnabled data = Z.testbit data 56.
Proof.
  intros Hlo Hb Hmid Hf Hhi data.
  assert (Hdata : 0 <= data) by (unfold data; lia).
  assert (H32 : data / 2 ^ 32 = b + 2 ^ 16 * (mid + f * 2 ^ 8 + hi * 2 ^ 9)).
  { symmetry. apply (Z.div_unique _ _ _ lo); [lia |]. unfold data. lia. }
  assert (H56 : data / 2 ^ 56 = f + 2 * hi).
  { symmetry.
    apply (Z.div_unique _ _ _ (lo + b * 2 ^ 32 + mid * 2 ^ 48)); [lia |].
    unfold data. lia. }
  assert (Hflag : (data / 2 ^ 56) mod 2 = f).
  { rewrite H56. replace (f + 2 * hi) with (f + hi * 2) by lia.
    rewrite Z.mod_add by lia. apply Z.mod_small. lia. }
  split; [| split].
  - rewrite extractLiquidationBonus_div by exact Hdata. rewrite H32.
    replace (b + 2 ^ 16 * (mid + f * 2 ^ 8 + hi * 2 ^ 9))
      with (b + (mid + f * 2 ^ 8 + hi * 2 ^ 9) * 2 ^ 16) by lia.
    rewrite Z.mod_add by lia. apply Z.mod_small. lia.
  - rewrite extractUsageAsCollateralEnabled_div by exact Hdata.
    rewrite Hflag. reflexivity.
  - rewrite extractUsageAsCollateralEnabled_div by exact Hdata.
    rewrite Hflag.
    pose proof (Z.testbit_spec' data 56 ltac:(lia)) as Ht. rewrite Hflag in Ht.
    destruct (Z.testbit data 56); simpl in Ht; rewrite <- Ht; reflexivity.
Qed.

Lemma reserve_configuration_layout_witness :
  extractLiquidationBonus (8192 + 10500 * 2 ^ 32 + 2 ^ 56) = 10500 /\
  extractUsageAsCollateralEnabled (8192 + 10500 * 2 ^ 32 + 2 ^ 56) = true.
Proof.
  destruct (reserve_configuration_layout 8192 10500 0 1 0) as (Hb & Hf & _);
    try lia.
  split; [exact Hb | exact Hf].
Defined.

(** ** Collateral ranking *)

(** The first element of a stably sorted array is the first element of
    the input that no other element beats. *)
Lemma array_sort_head {A : Type} (cmp : A -> A -> Z) (rank : A -> Z)
    (l : list A) (b : A) :
  (forall x y, cmp x y <= 0 <-> rank x <= rank y) ->
  array_sort cmp l !! 0%nat = Some b ->
  exists before after,
    l = before ++ b :: after /\
    Forall (fun x => rank b < rank x) before /\
    Forall (fun x => rank b <= rank x) after.
Proof.
  intros Hcmp. revert b.
  induction l as [| x l IH]; intros b Hhead; [discriminate |].
  cbn [array_sort foldr] in Hhead. fold (array_sort cmp l) in Hhead.
  destruct (array_sort cmp l) as [| y s] eqn:Hs.
  - assert (l = []) as ->.
    { pose proof (Permutation_length (array_sort_perm cmp l)) as Hlen.
      rewrite Hs in Hlen. destruct l; [reflexivity | discriminate]. }
    injection Hhead as <-. exists [], []. repeat constructor.
  - destruct (IH y eq_refl) as (before & after & -> & Hbefore & Hafter).
    cbn [sort_insert] in Hhead.
    destruct (decide (cmp x y <= 0)) as [Hle | Hgt].
    + injection Hhead as <-. apply Hcmp in Hle.
      exists [], (before ++ y :: after). split; [reflexivity |].
      split; [constructor |].
      apply Forall_app. split.
      * eapply Forall_impl; [exact Hbefore |]. intros z Hz. simpl in Hz. lia.
      * constructor; [exact Hle |].
        eapply Forall_impl; [exact Hafter |]. intros z Hz. simpl in Hz. lia.
    + injection Hhead as <-. rewrite Hcmp in Hgt.
      exists (x :: before), after. split; [reflexivity |].
      split; [| exact Hafter]. constructor; [lia | exact Hbefore].
Qed.

Lemma compareValueDescending_rank a b :
  compareValueDescending a b <= 0 <-> - valueUSD a <= - valueUSD b.
Proof.
  unfold compareValueDescending, BigNumber.gt, BigNumber.lt.
  repeat case_bool_decide; lia.
Qed.

(** X5.  The selector returns null exactly when no holding becomes a
    candidate; otherwise it returns the candidate of the largest valueUSD,
    and among equals the one that comes first in the input order. *)
Theorem selectBestCollateralAsset_best (chain : Chain) (poolAddress : string)
    (mInfos : list Holding) :
  exists candidates,
    collateralCandidates chain poolAddress mInfos = Return candidates /\
    ((candidates = [] /\
      selectBestCollateralAsset chain poolAddress mInfos = Return None) \/
     (exists best before after,
        selectBestCollateralAsset chain poolAddress mInfos = Return (Some best) /\
        candidates = before ++ best :: after /\
        Forall (fun c => valueUSD c < valueUSD best) before /\
        Forall (fun c => valueUSD c <= valueUSD best) after)).
Proof.
  exists (omap (candidateOf chain poolAddress) mInfos).
  split; [apply collateralCandidates_value |].
  unfold selectBestCollateralAsset. rewrite collateralCandidates_value.
  cbn [mbind completion_bind].
  set (cands := omap (candidateOf chain poolAddress) mInfos).
  destruct (decide (length cands = 0%nat)) as [Hnil | Hne].
  - left. split; [| reflexivity]. destruct cands; [reflexivity | discriminate].
  - right.
    destruct (array_sort compareValueDescending cands !! 0%nat) as [best |] eqn:Hhd.
    + destruct (array_sort_head compareValueDescending (fun c => - valueUSD c)
                  cands best compareValueDescending_rank Hhd)
        as (before & after & Hsplit & Hbefore & Hafter).
      exists best, before, after. split; [reflexivity |]. split; [exact Hsplit |].
      split.
      * eapply Forall_impl; [exact Hbefore |]. intros c Hc. simpl in Hc. lia.
      * eapply Forall_impl; [exact Hafter |]. intros c Hc. simpl in Hc. lia.
    + exfalso. apply lookup_ge_None in Hhd.
      pose proof (Permutation_length (array_sort_perm compareValueDescending cands)).
      lia.
Qed.

(** ** Failures that leave the per-borrower step *)

(** X6.  In the close-factor variant every borrower that reaches the
    sizing step (a collateral was selected, the debt asset's wrapper is
    in the index, the liquidity read succeeded) ends it with the
    TypeError of [BigNumber.min]: whatever the health factor, the debt,
    the liquidity, the prices and the venues, no cover amount is
    computed, nothing is assembled for that borrower and the error
    leaves [main]. *)
Theorem liquidate_sizing_throws
    (chain : Chain) (venues : Venues) (contracts : Contracts)
    (isAddress : string -> bool)
    (unhealthyUser : HealthRecord) (st : Position)
    (m0 d0 : Holding) (ms ds : list Holding)
    (best : CollateralCandidate) (debtMToken : UnderlyingEntry) (a : Z) :
  mInfos st = m0 :: ms ->
  dInfos st = d0 :: ds ->
  selectBestCollateralAsset chain (pool unhealthyUser) (mInfos st)
    = Return (Some best) ->
  findDebtMToken (token d0) (tokensWithUnderlying st) = Some debtMToken ->
  erc20_balanceOf chain (token d0) (mtoken debtMToken) = Some a ->
  liquidate chain venues contracts isAddress unhealthyUser st
    = Throw (TypeError "BigNumber.min is not a function").
Proof.
  intros Hm Hd Hbest Hfind Hbal.
  unfold liquidate. rewrite Hbest, Hm, Hd.
  cbn [mbind completion_bind]. rewrite Hfind, Hbal.
  cbn [await mbind completion_bind].
  rewrite sizeDebtToCover_throws. reflexivity.
Qed.

Lemma liquidate_sizing_throws_witness :
  liquidate chainLiquid venuesAgroOnly contractsExample isSingleCaseAddress
    borrowerExample positionExample
    = Throw (TypeError "BigNumber.min is not a function").
Proof.
  apply (liquidate_sizing_throws
           chainLiquid venuesAgroOnly contractsExample isSingleCaseAddress
           borrowerExample positionExample
           {| token := "0xC"; amount := 10 |}
           {| token := "0xD"; amount := 1000 |} [] []
           {| address := "0xC"; balance := 10; price := 100000000;
              decimals := 18; valueUSD := 0; liquidationBonus := 10500;
              usageAsCollateralEnabled := true |}
           {| underlyingToken := "0xd"; mtoken := "0xMD" |} 400).
  - reflexivity.
  - reflexivity.
  - vm_compute. reflexivity.
  - reflexivity.
  - reflexivity.
Defined.

(** X7.  The read of the debt wrapper's liquidity is not guarded: when it
    fails, the step of either variant throws and no outcome is reached
    for that borrower. *)
Theorem liquidity_read_failure_propagates
    (chain : Chain) (venues : Venues) (contracts : Contracts)
    (isAddress : string -> bool)
    (unhealthyUser : HealthRecord) (st : Position)
    (m0 d0 : Holding) (ms ds : list Holding) (debtMToken : UnderlyingEntry) :
  mInfos st = m0 :: ms ->
  dInfos st = d0 :: ds ->
  findDebtMToken (token d0) (tokensWithUnderlying st) = Some debtMToken ->
  erc20_balanceOf chain (token d0) (mtoken debtMToken) = None ->
  liquidate_index chain unhealthyUser st = Throw (CallException "balanceOf") /\
  (forall best,
     selectBestCollateralAsset chain (pool unhealthyUser) (mInfos st)
       = Return (Some best) ->
     liquidate chain venues contracts isAddress unhealthyUser st
       = Throw (CallException "balanceOf")).
Proof.
  intros Hm Hd Hfind Hbal. split.
  - unfold liquidate_index. rewrite Hm, Hd, Hfind, Hbal. reflexivity.
  - intros best Hbest. unfold liquidate. rewrite Hbest, Hm, Hd.
    cbn [mbind completion_bind]. rewrite Hfind, Hbal. reflexivity.
Qed.

Lemma liquidity_read_failure_propagates_witness :
  liquidate_index chainBalanceFails borrowerExample positionExample
    = Throw (CallException "balanceOf").
Proof.
  refine (proj1 (liquidity_read_failure_propagates
                   chainBalanceFails venuesAgroOnly contractsExample
                   isSingleCaseAddress
                   borrowerExample positionExample
                   {| token := "0xC"; amount := 10 |}
                   {| token := "0xD"; amount := 1000 |} [] []
                   {| underlyingToken := "0xd"; mtoken := "0xMD" |}
                   _ _ _ _)); reflexivity.
Defined.

(** ** Venue adapters *)

Section AdapterFacts.
Variable venues : Venues.
Variable contracts : Contracts.
Variable isAddress : string -> bool.

Lemma tryFeeTier_invariant tokenIn tokenOut amountIn processed best fee :
  v3LoopInvariant venues tokenIn tokenOut amountIn processed best ->
  exists best',
    tryFeeTier venues tokenIn tokenOut amountIn best fee = Return best' /\
    v3LoopInvariant venues tokenIn tokenOut amountIn (processed ++ [fee]) best'.
Proof.
  intros Hinv. unfold tryFeeTier, await.
  fold (tierOutput venues tokenIn tokenOut amountIn fee).
  destruct (tierOutput venues tokenIn tokenOut amountIn fee) as [m |] eqn:Hout;
    cbn [mbind completion_bind try_catch].
  - unfold BigNumber.gt. case_bool_decide as Hgt.
    + (* a new best *)
      eexists. split; [reflexivity |].
      unfold v3LoopInvariant in *. cbn [bestPath bestAmountOut bestFee].
      exists processed, fee, []. split; [reflexivity |].
      split; [reflexivity |]. split; [reflexivity |]. split; [exact Hout |].
      destruct (bestPath best) as [p |].
      * destruct Hinv as (before & f0 & after & -> & _ & _ & Hf0 & Hpos & Hb & Ha).
        split; [lia |]. split; [| constructor].
        apply Forall_app. split.
        -- eapply Forall_impl; [exact Hb |]. intros f Hf m' Hm'.
           specialize (Hf m' Hm'). lia.
        -- constructor.
           ++ intros m' Hm'. rewrite Hf0 in Hm'. injection Hm' as <-. lia.
           ++ eapply Forall_impl; [exact Ha |]. intros f Hf m' Hm'.
              specialize (Hf m' Hm'). lia.
      * destruct Hinv as (Hzero & Hall).
        split; [lia |]. split; [| constructor].
        eapply Forall_impl; [exact Hall |]. intros f Hf m' Hm'.
        specialize (Hf m' Hm'). lia.
    + (* the running best stands *)
      exists best. split; [reflexivity |].
      unfold v3LoopInvariant in *.
      destruct (bestPath best) as [p |].
      * destruct Hinv as (before & f0 & after & -> & Hp & Hfee & Hf0 & Hpos & Hb & Ha).
        exists before, f0, (after ++ [fee]).
        split; [rewrite <- app_assoc; reflexivity |].
        repeat (split; [assumption |]).
        apply Forall_app. split; [exact Ha |].
        constructor; [| constructor].
        intros m' Hm'. rewrite Hout in Hm'. injection Hm' as <-. lia.
      * destruct Hinv as (Hzero & Hall). split; [exact Hzero |].
        apply Forall_app. split; [exact Hall |].
        constructor; [| constructor].
        intros m' Hm'. rewrite Hout in Hm'. injection Hm' as <-. lia.
  - (* the tier has no pool: skipped *)
    exists best. split; [reflexivity |].
    unfold v3LoopInvariant in *.
    destruct (bestPath best) as [p |].
    + destruct Hinv as (before & f0 & after & -> & Hp & Hfee & Hf0 & Hpos & Hb & Ha).
      exists before, f0, (after ++ [fee]).
      split; [rewrite <- app_assoc; reflexivity |].
      repeat (split; [assumption |]).
      apply Forall_app. split; [exact Ha |].
      constructor; [| constructor]. intros m' Hm'. congruence.
    + destruct Hinv as (Hzero & Hall). split; [exact Hzero |].
      apply Forall_app. split; [exact Hall |].
      constructor; [| constructor]. intros m' Hm'. congruence.
Qed.

Lemma feeTierLoop_invariant tokenIn tokenOut amountIn fees :
  forall processed best,
    v3LoopInvariant venues tokenIn tokenOut amountIn processed best ->
    exists best',
      foldl (fun acc fee =>
               best ← acc; tryFeeTier venues tokenIn tokenOut amountIn best fee)
        (Return best) fees = Return best' /\
      v3LoopInvariant venues tokenIn tokenOut amountIn (processed ++ fees) best'.
Proof.
  induction fees as [| fee fees IH]; intros processed best Hinv.
  - exists best. rewrite app_nil_r. split; [reflexivity | exact Hinv].
  - destruct (tryFeeTier_invariant tokenIn tokenOut amountIn processed best fee Hinv)
      as (best1 & Hstep & Hinv1).
    destruct (IH _ _ Hinv1) as (best' & Hrun & Hinv').
    exists best'. cbn [foldl mbind completion_bind]. rewrite Hstep.
    split; [exact Hrun |].
    rewrite <- app_assoc in Hinv'. exact Hinv'.
Qed.

(** X8.  The v3 adapter returns null exactly when no fee tier reports a
    positive output (a tier without a pool is skipped); otherwise its
    quote carries the largest output over the four tiers, on the path of
    the first tier, in the order 100, 500, 3000, 10000, that reports it. *)
Theorem getV3Quote_best_tier (tokenIn tokenOut : string) (amountIn : Z) :
  (getV3Quote venues contracts tokenIn tokenOut amountIn = Return QNull /\
   Forall (fun fee => forall m,
             tierOutput venues tokenIn tokenOut amountIn fee = Some m -> m <= 0)
     feeTiers) \/
  (exists before fee after m,
     feeTiers = before ++ fee :: after /\
     tierOutput venues tokenIn tokenOut amountIn fee = Some m /\
     0 < m /\
     Forall (fun f => forall m',
               tierOutput venues tokenIn tokenOut amountIn f = Some m' -> m' < m)
       before /\
     Forall (fun f => forall m',
               tierOutput venues tokenIn tokenOut amountIn f = Some m' -> m' <= m)
       after /\
     getV3Quote venues contracts tokenIn tokenOut amountIn =
       Return (QQuote
         {| swapType := UNISWAP_V3;
            router := trado_router contracts;
            path := SolidityPackV3 tokenIn fee tokenOut;
            amountIn := amountIn;
            amountOut := Some m;
            amountOutMin := Z.quot (m * 995) 1000;
            adapters := [] |})).
Proof.
  destruct (feeTierLoop_invariant tokenIn tokenOut amountIn feeTiers []
              {| bestAmountOut := BigNumber.from 0; bestFee := 3000;
                 bestPath := None |})
    as (best & Hrun & Hinv).
  { unfold v3LoopInvariant. cbn. split; [reflexivity | constructor]. }
  unfold getV3Quote. rewrite Hrun. cbn [mbind completion_bind try_catch].
  cbn [app] in Hinv. unfold v3LoopInvariant in Hinv.
  destruct (bestPath best) as [p |].
  - destruct Hinv as (before & fee & after & Hsplit & -> & _ & Hout & Hpos & Hb & Ha).
    right. exists before, fee, after, (bestAmountOut best).
    repeat (split; [assumption |]).
    unfold BigNumber.gt. rewrite bool_decide_eq_true_2 by lia. reflexivity.
  - destruct Hinv as (_ & Hall). left. split; [reflexivity | exact Hall].
Qed.

(** X9.  The v2 adapter never throws.  On two addresses it always
    produces a quote: of the last amount when [getAmountsOut] answers
    with at least two, of the estimate amountIn * 987 / 1000 when the
    call fails or answers with fewer; [amountOutMin] is 995 / 1000 of
    the quoted output.  When one of the two token strings is not an
    address neither route can encode the path, and the outer handler
    returns null. *)
Theorem getV2Quote_fallback (tokenIn tokenOut : string) (amountIn : Z) :
  let quoteOf out :=
    {| swapType := UNISWAP_V2;
       router := punch_router contracts;
       path := AbiAddressArray [tokenIn; tokenOut];
       amountIn := amountIn;
       amountOut := Some out;
       amountOutMin := Z.quot (out * 995) 1000;
       adapters := [] |} in
  (isAddress tokenIn = true /\ isAddress tokenOut = true /\
   getV2Quote venues contracts isAddress tokenIn tokenOut amountIn =
     Return (QQuote (quoteOf
       match v2Router_getAmountsOut venues amountIn [tokenIn; tokenOut] with
       | Some (first :: second :: rest) =>
           default (Z.quot (amountIn * 987) 1000) (last (first :: second :: rest))
       | _ => Z.quot (amountIn * 987) 1000
       end))) \/
  ((isAddress tokenIn = false \/ isAddress tokenOut = false) /\
   getV2Quote venues contracts isAddress tokenIn tokenOut amountIn = Return QNull).
Proof.
  cbv zeta. rewrite getV2Quote_value.
  destruct (isAddress tokenIn) eqn:Hin, (isAddress tokenOut) eqn:Hout; cbn [andb].
  - left. split; [reflexivity |]. split; reflexivity.
  - right. split; [right; reflexivity | reflexivity].
  - right. split; [left; reflexivity | reflexivity].
  - right. split; [left; reflexivity | reflexivity].
Qed.

(** X10.  [getBestQuote] never returns null.  It returns the aggregator's
    quote (path and adapters as the venue gave them, [amountOutMin] 990 /
    1000 of the final amount) exactly when [findBestPath] answers with a
    positive final amount; when the call fails, or the offer has no
    amounts or a final amount that is not positive, the adapter returns
    undefined and [getBestQuote] throws a TypeError. *)
Theorem getBestQuote_quote_or_throws (tokenIn tokenOut : string) (amountIn : Z) :
  (exists offer out,
     agroKittyRouter_findBestPath venues amountIn tokenIn tokenOut 4 = Some offer /\
     last (offer_amounts offer) = Some out /\ 0 < out /\
     getBestQuote venues contracts tokenIn tokenOut amountIn =
       Return (QQuote
         {| swapType := AGRO_KITTY;
            router := agrokitty_router contracts;
            path := AbiAddressArray (offer_path offer);
            amountIn := amountIn;
            amountOut := None;
            amountOutMin := Z.quot (out * 990) 1000;
            adapters := offer_adapters offer |})) \/
  ((agroKittyRouter_findBestPath venues amountIn tokenIn tokenOut 4 = None \/
    exists offer,
      agroKittyRouter_findBestPath venues amountIn tokenIn tokenOut 4 = Some offer /\
      forall out, last (offer_amounts offer) = Some out -> out <= 0) /\
   getAgroKittyQuote venues contracts tokenIn tokenOut amountIn [] = Return QUndefined /\
   getBestQuote venues contracts tokenIn tokenOut amountIn =
     Throw (TypeError "bestQuote.amountOutMin")).
Proof.
  unfold getBestQuote, getAgroKittyQuote, await.
  destruct (agroKittyRouter_findBestPath venues amountIn tokenIn tokenOut 4)
    as [offer |] eqn:Hread; cbn [mbind completion_bind try_catch].
  - destruct (last (offer_amounts offer)) as [out |] eqn:Hlast;
      cbn [mbind completion_bind try_catch].
    + unfold BigNumber.gt. case_bool_decide as Hgt;
        cbn [mbind completion_bind try_catch].
      * left. exists offer, out. repeat split; try assumption; lia.
      * right. split; [| split; reflexivity].
        right. exists offer. split; [reflexivity |].
        intros out' Hout'. rewrite Hlast in Hout'. injection Hout' as <-. lia.
    + right. split; [| split; reflexivity].
      right. exists offer. split; [reflexivity |]. intros out' Hout'. congruence.
  - right. split; [left; reflexivity | split; reflexivity].
Qed.

(** X11.  On addresses, an error while quoting either leg resets both
    legs to the defaults: when the repay leg has no route, and also when
    the repay leg was quoted and only the receiver leg's quote fails, the
    repay quote being discarded with it. *)
Theorem getLiquidationSwapParams_error_resets_both
    (collateralAsset debtAsset : string) (collateralAmount : Z)
    (wflowAddress : string) (e : exn) :
  isAddress collateralAsset = true ->
  isAddress debtAsset = true ->
  isAddress wflowAddress = true ->
  getBestQuote venues contracts collateralAsset debtAsset collateralAmount
    = Throw e \/
  (exists q,
     getBestQuote venues contracts collateralAsset debtAsset collateralAmount
       = Return (QQuote q) /\
     toLowerCase debtAsset <> toLowerCase wflowAddress /\
     0 < amountOutMin q /\
     getBestQuote venues contracts debtAsset wflowAddress (amountOutMin q)
       = Throw e) ->
  getLiquidationSwapParams venues contracts isAddress collateralAsset debtAsset
    collateralAmount wflowAddress =
  Return
    {| sParamsToRepayLoan :=
         defaultLeg contracts collateralAsset debtAsset collateralAmount;
       sParamsToSendToReceiver :=
         defaultLeg contracts debtAsset wflowAddress 0 |}.
Proof.
  intros Hc Hd Hw [Hrepay | (q & Hrepay & Hdiff & Hpos & Hrecv)];
    unfold getLiquidationSwapParams; rewrite Hrepay;
    cbn [mbind completion_bind try_catch amountOutMinOrZero].
  - rewrite (defaultSwapParams_value contracts isAddress _ _ _ Hc Hd).
    rewrite (defaultSwapParams_value contracts isAddress _ _ _ Hd Hw).
    reflexivity.
  - unfold string_eqb. rewrite bool_decide_eq_false_2 by exact Hdiff.
    unfold BigNumber.gt. rewrite bool_decide_eq_true_2 by lia.
    rewrite Hrecv. cbn [mbind completion_bind try_catch].
    rewrite (defaultSwapParams_value contracts isAddress _ _ _ Hc Hd).
    rewrite (defaultSwapParams_value contracts isAddress _ _ _ Hd Hw).
    reflexivity.
Qed.
(** X2.  The catch handler of [getLiquidationSwapParams] is not itself
    guarded.  When the quoting of the repay leg throws and one of the
    three asset strings is not an address, the handler's own encoding of
    the default paths throws, and the error leaves the function. *)
Theorem getLiquidationSwapParams_handler_throws
    (collateralAsset debtAsset : string) (collateralAmount : Z)
    (wflowAddress : string) (e : exn) :
  getBestQuote venues contracts collateralAsset debtAsset collateralAmount
    = Throw e ->
  isAddress collateralAsset = false \/ isAddress debtAsset = false \/
    isAddress wflowAddress = false ->
  getLiquidationSwapParams venues contracts isAddress collateralAsset debtAsset
    collateralAmount wflowAddress = Throw (Error "invalid address").
Proof.
  intros Hrepay Hbad.
  unfold getLiquidationSwapParams. rewrite Hrepay.
  cbn [mbind completion_bind try_catch].
  destruct (isAddress collateralAsset) eqn:Hc.
  2: { rewrite (defaultSwapParams_invalid contracts isAddress
                  collateralAsset debtAsset collateralAmount (or_introl Hc)).
       reflexivity. }
  destruct (isAddress debtAsset) eqn:Hd.
  2: { rewrite (defaultSwapParams_invalid contracts isAddress
                  collateralAsset debtAsset collateralAmount (or_intror Hd)).
       reflexivity. }
  destruct Hbad as [Hbad | [Hbad | Hw]]; try discriminate Hbad.
  rewrite (defaultSwapParams_value contracts isAddress
             collateralAsset debtAsset collateralAmount Hc Hd).
  cbn [mbind completion_bind].
  rewrite (defaultSwapParams_invalid contracts isAddress
             debtAsset wflowAddress 0 (or_intror Hw)).
  reflexivity.
Qed.
End AdapterFacts.

Lemma getLiquidationSwapParams_handler_throws_witness :
  getLiquidationSwapParams venuesV2Only contractsExample isSingleCaseAddress
    "0xA" addressD 1000 addressWFLOW = Throw (Error "invalid address").
Proof.
  apply (getLiquidationSwapParams_handler_throws
           venuesV2Only contractsExample isSingleCaseAddress
           "0xA" addressD 1000 addressWFLOW
           (TypeError "bestQuote.amountOutMin")).
  - reflexivity.
  - left. reflexivity.
Defined.

Lemma getLiquidationSwapParams_error_resets_both_witness :
  (exists q,
     getBestQuote venuesRouteFromAOnly contractsExample addressA addressD 1000
       = Return (QQuote q) /\ amountOutMin q = 1980) /\
  getLiquidationSwapParams venuesRouteFromAOnly contractsExample
    isSingleCaseAddress addressA addressD 1000 addressWFLOW =
  Return
    {| sParamsToRepayLoan := defaultLeg contractsExample addressA addressD 1000;
       sParamsToSendToReceiver :=
         defaultLeg contractsExample addressD addressWFLOW 0 |}.
Proof.
  split; [eexists; split; reflexivity |].
  apply (getLiquidationSwapParams_error_resets_both
           venuesRouteFromAOnly contractsExample isSingleCaseAddress
           addressA addressD 1000 addressWFLOW
           (TypeError "bestQuote.amountOutMin")).
  - reflexivity.
  - reflexivity.
  - reflexivity.
  - right. eexists. split; [reflexivity |].
    split; [discriminate |]. split; [vm_compute; reflexivity | reflexivity].
Defined.

Lemma getV3Quote_best_tier_example :
  getV3Quote venuesV3Tiers contractsExample addressA addressB 1000 =
  Return (QQuote
    {| swapType := UNISWAP_V3; router := "0xTrado";
       path := SolidityPackV3 addressA 3000 addressB;
       amountIn := 1000; amountOut := Some 900; amountOutMin := 895;
       adapters := [] |}).
Proof. reflexivity. Qed.

(** ** The position resolver, wrapper by wrapper *)

Lemma interleave_lookup (answers : list (Z * string)) (k : nat) :
  interleave answers !! (2 * k)%nat = (fun a => InfoBalance a.1) <$> answers !! k /\
  interleave answers !! (2 * k + 1)%nat = (fun a => InfoUnderlying a.2) <$> answers !! k.
Proof.
  revert k. induction answers as [| a answers IH]; intros k.
  - split; reflexivity.
  - destruct k as [| k].
    + split; reflexivity.
    + replace (2 * S k)%nat with (S (S (2 * k))) by lia.
      replace (S (S (2 * k)) + 1)%nat with (S (S (2 * k + 1))) by lia.
      exact (IH k).
Qed.

Lemma interleave_length (answers : list (Z * string)) :
  length (interleave answers) = (2 * length answers)%nat.
Proof.
  induction answers as [| a answers IH]; [reflexivity |].
  unfold interleave in *. cbn [mbind list_bind app length] in *. lia.
Qed.

Lemma even_index_mod k : ((2 * k) mod 2 = 0)%nat.
Proof. rewrite Nat.mul_comm. apply Nat.Div0.mod_mul. Qed.

Lemma odd_index_mod k : ((2 * k + 1) mod 2 <> 0)%nat.
Proof.
  replace (2 * k + 1)%nat with (1 + k * 2)%nat by lia.
  rewrite Nat.Div0.mod_add. discriminate.
Qed.

Lemma odd_index_div k : ((2 * k + 1) / 2 = k)%nat.
Proof.
  replace (2 * k + 1)%nat with (1 + k * 2)%nat by lia.
  rewrite Nat.div_add by lia. reflexivity.
Qed.

Lemma holdingsOf_snoc answers answer :
  holdingsOf (answers ++ [answer]) =
  holdingsOf answers ++
    (if BigNumber.gt answer.1 0
     then [{| token := answer.2; amount := answer.1 |}] else []).
Proof.
  unfold holdingsOf. rewrite omap_app. f_equal. cbn [omap list_omap].
  destruct (BigNumber.gt answer.1 0); reflexivity.
Qed.

(** Decoding wrapper [k] takes the loop from [positionAfter k] to
    [positionAfter (S k)]. *)
Lemma resolveStep_pair mTokens answers k answer :
  answers !! k = Some answer ->
  (st ← resolveStep mTokens (interleave answers) (2 * k) (positionAfter mTokens answers k);
   resolveStep mTokens (interleave answers) (2 * k + 1) st)
  = Return (positionAfter mTokens answers (S k)).
Proof.
  intros Hk.
  destruct (interleave_lookup answers k) as (Heven & Hodd).
  rewrite Hk in Heven, Hodd. cbn [fmap option_fmap option_map] in Heven, Hodd.
  assert (Hzip : zip mTokens answers !! k = (fun w => (w, answer)) <$> mTokens !! k).
  { rewrite lookup_zip_with. rewrite Hk.
    destruct (mTokens !! k); reflexivity. }
  assert (Hstep1 : forall st,
    resolveStep mTokens (interleave answers) (2 * k) st =
    Return
      (if BigNumber.gt answer.1 0 then
         let holding := {| token := answer.2; amount := answer.1 |} in
         if decide (k < length mTokens)%nat
         then {| mInfos := mInfos st ++ [holding]; dInfos := dInfos st;
                 tokensWithUnderlying := tokensWithUnderlying st |}
         else {| mInfos := mInfos st; dInfos := dInfos st ++ [holding];
                 tokensWithUnderlying := tokensWithUnderlying st |}
       else st)).
  { intros st. unfold resolveStep. cbv zeta.
    rewrite decide_True by apply even_index_mod.
    rewrite Heven, Hodd.
    destruct (BigNumber.gt answer.1 0); [| reflexivity].
    destruct (decide (k < length mTokens)%nat).
    - rewrite decide_True by lia. reflexivity.
    - rewrite decide_False by lia. reflexivity. }
  rewrite Hstep1. cbn [mbind completion_bind].
  destruct (decide (k < length mTokens)%nat) as [Hcoll | Hdebt].
  - (* a collateral wrapper *)
    destruct (lookup_lt_is_Some_2 mTokens k Hcoll) as (w & Hw).
    rewrite Hw in Hzip. cbn [fmap option_fmap option_map] in Hzip.
    assert (Hm : take (S k) (take (length mTokens) answers)
                 = take k (take (length mTokens) answers) ++ [answer]).
    { apply take_S_r. rewrite lookup_take_lt by lia. exact Hk. }
    assert (Hd : (S k - length mTokens = k - length mTokens)%nat) by lia.
    assert (Hz : take (S k) (zip mTokens answers)
                 = take k (zip mTokens answers) ++ [(w, answer)])
      by (apply take_S_r; exact Hzip).
    assert (Hstep2 : forall st,
      tokensWithUnderlying st = tokensWithUnderlying (positionAfter mTokens answers k) ->
      resolveStep mTokens (interleave answers) (2 * k + 1) st =
      Return {| mInfos := mInfos st; dInfos := dInfos st;
                tokensWithUnderlying :=
                  tokensWithUnderlying (positionAfter mTokens answers (S k)) |}).
    { intros st Hidx. unfold resolveStep. cbv zeta.
      rewrite decide_False by apply odd_index_mod.
      rewrite decide_True by lia. rewrite Hodd, Hidx.
      unfold positionAfter. cbn [tokensWithUnderlying].
      rewrite Hz, foldl_app. cbn [foldl].
      set (index := foldl registerUnderlying [] (take k (zip mTokens answers))).
      unfold registerUnderlying. cbn [fst snd].
      rewrite odd_index_div, Hw. cbn [default from_option id].
      destruct (findIndex _ index); [| reflexivity].
      destruct st; cbn [tokensWithUnderlying] in *; subst; reflexivity. }
    rewrite Hstep2 by (destruct (BigNumber.gt answer.1 0); reflexivity).
    unfold positionAfter. rewrite Hm, Hd, holdingsOf_snoc.
    destruct (BigNumber.gt answer.1 0);
      cbn [mInfos dInfos tokensWithUnderlying];
      rewrite ?app_nil_r; reflexivity.
  - (* a debt wrapper *)
    assert (Hnone : mTokens !! k = None) by (apply lookup_ge_None; lia).
    rewrite Hnone in Hzip. cbn [fmap option_fmap option_map] in Hzip.
    assert (Hm : take (S k) (take (length mTokens) answers)
                 = take k (take (length mTokens) answers)).
    { rewrite !take_take. f_equal. lia. }
    assert (Hd : take (S k - length mTokens) (drop (length mTokens) answers)
                 = take (k - length mTokens) (drop (length mTokens) answers)
                   ++ [answer]).
    { replace (S k - length mTokens)%nat with (S (k - length mTokens)) by lia.
      apply take_S_r. rewrite lookup_drop.
      replace (length mTokens + (k - length mTokens))%nat with k by lia.
      exact Hk. }
    assert (Hz : take (S k) (zip mTokens answers) = take k (zip mTokens answers)).
    { apply lookup_ge_None in Hzip. rewrite !take_ge by lia. reflexivity. }
    assert (Hstep2 : forall st,
      resolveStep mTokens (interleave answers) (2 * k + 1) st = Return st).
    { intros st. unfold resolveStep. cbv zeta.
      rewrite decide_False by apply odd_index_mod.
      rewrite decide_False by lia. reflexivity. }
    rewrite Hstep2.
    unfold positionAfter. rewrite Hm, Hd, Hz, holdingsOf_snoc.
    destruct (BigNumber.gt answer.1 0);
      cbn [mInfos dInfos tokensWithUnderlying];
      rewrite ?app_nil_r; reflexivity.
Qed.

Lemma resolveLoop_pairs mTokens answers k :
  (k <= length answers)%nat ->
  for_loop (2 * k) (resolveStep mTokens (interleave answers)) emptyPosition
  = Return (positionAfter mTokens answers k).
Proof.
  induction k as [| k IH]; intros Hk.
  - reflexivity.
  - replace (2 * S k)%nat with (S (S (2 * k))) by lia.
    rewrite !for_loop_succ, IH by lia. cbn [mbind completion_bind].
    destruct (lookup_lt_is_Some_2 answers k ltac:(lia)) as (answer & Hanswer).
    pose proof (resolveStep_pair mTokens answers k answer Hanswer) as Hpair.
    replace (S (2 * k)) with (2 * k + 1)%nat by lia. exact Hpair.
Qed.

Lemma resolvePosition_interleave (mTokens : list string)
    (answers : list (Z * string)) :
  resolvePosition mTokens (interleave answers) =
  Return
    {| mInfos := holdingsOf (take (length mTokens) answers);
       dInfos := holdingsOf (drop (length mTokens) answers);
       tokensWithUnderlying := underlyingIndexOf mTokens answers |}.
Proof.
  unfold resolvePosition. rewrite interleave_length.
  rewrite resolveLoop_pairs by lia. unfold positionAfter, underlyingIndexOf.
  f_equal. f_equal.
  - rewrite take_ge; [reflexivity |]. rewrite length_take. lia.
  - rewrite take_ge; [reflexivity |]. rewrite length_drop. lia.
  - rewrite take_ge; [reflexivity |]. rewrite length_zip_with. lia.
Qed.

(** X12.  On the interleaved answers of the wrappers, collateral
    wrappers first, the decode loop returns: as collateral holdings the
    collateral wrappers with a positive balance, in order; as debt
    holdings the debt wrappers with a positive balance, in order; and as
    index the collateral wrappers' underlying assets, one entry per
    lower-cased asset. *)
Theorem resolvePosition_by_wrapper (mTokens : list string)
    (answers : list (Z * string)) :
  resolvePosition mTokens (interleave answers) =
  Return
    {| mInfos := holdingsOf (take (length mTokens) answers);
       dInfos := holdingsOf (drop (length mTokens) answers);
       tokensWithUnderlying := underlyingIndexOf mTokens answers |}.
Proof. apply resolvePosition_interleave. Qed.

(** ** Looking the debt asset up in the index *)

Lemma find_cons {A : Type} (pred : A -> bool) (x : A) (l : list A) :
  find pred (x :: l) = if pred x then Some x else find pred l.
Proof.
  unfold find. cbn [list_find].
  destruct (pred x) eqn:Hp.
  - rewrite decide_True by reflexivity. reflexivity.
  - rewrite decide_False by discriminate.
    destruct (list_find _ l) as [[i y] |]; reflexivity.
Qed.

Lemma find_app {A : Type} (pred : A -> bool) (l1 l2 : list A) :
  find pred (l1 ++ l2) =
  match find pred l1 with Some y => Some y | None => find pred l2 end.
Proof.
  induction l1 as [| x l1 IH]; [reflexivity |].
  cbn [app]. rewrite !find_cons. destruct (pred x); [reflexivity | exact IH].
Qed.

Lemma findIndex_find_None {A : Type} (pred : A -> bool) (l : list A) :
  findIndex pred l = None <-> find pred l = None.
Proof. unfold findIndex, find. rewrite !fmap_None. reflexivity. Qed.

Lemma registerUnderlying_find (key : string) (Z0 : list (string * (Z * string))) :
  forall index,
    find (fun e => string_eqb (underlyingToken e) key)
      (foldl registerUnderlying index Z0) =
    match find (fun e => string_eqb (underlyingToken e) key) index with
    | Some e => Some e
    | None =>
        (fun w => {| underlyingToken := key; mtoken := w.1 |}) <$>
        find (fun w => string_eqb (toLowerCase w.2.2) key) Z0
    end.
Proof.
  induction Z0 as [| w Z0 IH]; intros index.
  - cbn [foldl]. destruct (find _ index); reflexivity.
  - cbn [foldl]. rewrite IH. rewrite find_cons. unfold registerUnderlying.
    destruct (findIndex _ index) as [i |] eqn:Hpresent.
    + (* the wrapper's underlying is already a key *)
      destruct (find (fun e => string_eqb (underlyingToken e) key) index)
        as [e |] eqn:Hkey; [reflexivity |].
      destruct (string_eqb (toLowerCase w.2.2) key) eqn:Hw; [| reflexivity].
      exfalso. apply findIndex_Some in Hpresent as (x & Hx & Hp).
      unfold string_eqb in Hw, Hp. apply bool_decide_eq_true in Hw, Hp.
      assert (Hnone : findIndex (fun e => string_eqb (underlyingToken e) key) index = None)
        by (apply findIndex_find_None; exact Hkey).
      apply findIndex_None in Hnone. rewrite Forall_forall in Hnone.
      specialize (Hnone x Hx). unfold string_eqb in Hnone.
      apply bool_decide_eq_false in Hnone. congruence.
    + rewrite find_app.
      destruct (find (fun e => string_eqb (underlyingToken e) key) index)
        as [e |] eqn:Hkey; [reflexivity |].
      rewrite find_cons. cbn [underlyingToken find].
      destruct (string_eqb (toLowerCase w.2.2) key) eqn:Hw.
      * unfold string_eqb in Hw. apply bool_decide_eq_true in Hw.
        rewrite Hw. reflexivity.
      * reflexivity.
Qed.

Lemma findDebtMToken_first_wrapper_aux (mTokens : list string)
    (answers : list (Z * string)) (debtAsset : string) :
  findDebtMToken debtAsset (underlyingIndexOf mTokens answers) =
  (fun w => {| underlyingToken := toLowerCase debtAsset; mtoken := w.1 |}) <$>
  find (fun w => string_eqb (toLowerCase w.2.2) (toLowerCase debtAsset))
    (zip mTokens answers).
Proof.
  unfold findDebtMToken, underlyingIndexOf.
  rewrite registerUnderlying_find. reflexivity.
Qed.

(** X13.  Looking a debt asset up in the index built by the decode loop
    yields the first collateral wrapper, in configuration order, whose
    underlying asset equals the debt asset up to letter case, and nothing
    when there is no such wrapper; the wrappers' balances play no part. *)
Theorem findDebtMToken_first_wrapper (mTokens : list string)
    (answers : list (Z * string)) (debtAsset : string) :
  findDebtMToken debtAsset (underlyingIndexOf mTokens answers) =
  (fun w => {| underlyingToken := toLowerCase debtAsset; mtoken := w.1 |}) <$>
  find (fun w => string_eqb (toLowerCase w.2.2) (toLowerCase debtAsset))
    (zip mTokens answers).
Proof. apply findDebtMToken_first_wrapper_aux. Qed.

(** X14.  End to end, [index.js] attempts a liquidation with the first
    collateral wrapper that has a positive balance as collateral (no
    ranking), the first debt wrapper that has a positive balance as debt,
    and the liquidity that the first collateral wrapper of the debt asset
    holds; it reports "unexpected" when no collateral wrapper has the
    debt asset as underlying, and skips the borrower when either side has
    no positive balance. *)
Theorem resolveAndLiquidate_index_by_wrapper (chain : Chain)
    (mTokens : list string) (answers : list (Z * string))
    (unhealthyUser : HealthRecord) :
  resolveAndLiquidate_index chain mTokens (interleave answers) unhealthyUser =
  match holdingsOf (take (length mTokens) answers),
        holdingsOf (drop (length mTokens) answers) with
  | m0 :: _, d0 :: _ =>
      match find (fun w => string_eqb (toLowerCase w.2.2) (toLowerCase (token d0)))
              (zip mTokens answers) with
      | Some w =>
          debtBalanceInmToken ←
            await "balanceOf" (erc20_balanceOf chain (token d0) w.1);
          Return (Submitted
            {| lp_collateralAsset := token m0;
               lp_debtAsset := token d0;
               lp_user := user unhealthyUser;
               lp_amount := Z.min (amount d0) debtBalanceInmToken;
               lp_transferAmount := 0;
               lp_debtToCover :=
                 if decide (debtBalanceInmToken < amount d0)
                 then debtBalanceInmToken else constants.MaxUint256 |})
      | None => Return Unexpected
      end
  | _, _ => Return NoCollateralOrDebt
  end.
Proof.
  unfold resolveAndLiquidate_index.
  rewrite resolvePosition_interleave. cbn [mbind completion_bind].
  unfold liquidate_index. cbn [mInfos dInfos tokensWithUnderlying].
  destruct (holdingsOf (take (length mTokens) answers)) as [| m0 ms];
    [reflexivity |].
  destruct (holdingsOf (drop (length mTokens) answers)) as [| d0 ds];
    [reflexivity |].
  rewrite findDebtMToken_first_wrapper_aux.
  destruct (find _ (zip mTokens answers)) as [w |];
    cbn [fmap option_fmap option_map mtoken]; [| reflexivity].
  destruct (erc20_balanceOf chain (token d0) w.1) as [a |];
    cbn [await mbind completion_bind]; [| reflexivity].
  unfold sizeDebtToCover_index, BigNumber.gt. cbn [checkedBal cover].
  destruct (decide (a < amount d0)) as [Hlt | Hge].
  - rewrite !bool_decide_eq_true_2 by lia. rewrite Z.min_r by lia. reflexivity.
  - rewrite !bool_decide_eq_false_2 by lia. rewrite Z.min_l by lia. reflexivity.
Qed.

(** ** The batch call gateway *)

Section GatewayFacts.
Context {raw : Type}.
Variable aggregate : list Call -> option (list raw).
Variable decode_getUserAccountData : raw -> completion Z.
Variable decode_balanceOf : raw -> completion Z.
Variable decode_UNDERLYING_ASSET_ADDRESS : raw -> completion string.

(** An order-preserving gateway: the answer to a batch is the list of
    the answers to its calls, and the decoders read them back. *)
Variable respond : Call -> raw.
Variable healthOf : string -> string -> Z.
Variable balanceOf : string -> string -> Z.
Variable underlyingOf : string -> string.
Hypothesis aggregate_in_order :
  forall calls, aggregate calls = Some (respond <$> calls).
Hypothesis decode_health : forall pool user,
  decode_getUserAccountData
    (respond {| target := pool; callData := GetUserAccountData user |})
  = Return (healthOf pool user).
Hypothesis decode_balance : forall wrapper user,
  decode_balanceOf (respond {| target := wrapper; callData := BalanceOf user |})
  = Return (balanceOf wrapper user).
Hypothesis decode_underlying : forall wrapper,
  decode_UNDERLYING_ASSET_ADDRESS
    (respond {| target := wrapper; callData := UNDERLYING_ASSET_ADDRESS |})
  = Return (underlyingOf wrapper).

Lemma decodeTokenInfos_pair ind (r1 r2 : raw) (rest : list raw) :
  (ind mod 2 = 0)%nat ->
  decodeTokenInfos decode_balanceOf decode_UNDERLYING_ASSET_ADDRESS ind
    (r1 :: r2 :: rest) =
  (b ← decode_balanceOf r1;
   u ← decode_UNDERLYING_ASSET_ADDRESS r2;
   infos ← decodeTokenInfos decode_balanceOf decode_UNDERLYING_ASSET_ADDRESS
             (S (S ind)) rest;
   Return (InfoBalance b :: InfoUnderlying u :: infos)).
Proof.
  intros Heven.
  assert (Hodd : (S ind mod 2 <> 0)%nat).
  { revert Heven. rewrite !Nat.Div0.mod_divides. intros (c & ->) (c' & Hc'). lia. }
  cbn [decodeTokenInfos].
  rewrite (decide_True (P := (ind mod 2 = 0)%nat)) by exact Heven.
  rewrite (decide_False (P := (S ind mod 2 = 0)%nat)) by exact Hodd.
  destruct (decode_balanceOf r1) as [b |]; [| reflexivity].
  destruct (decode_UNDERLYING_ASSET_ADDRESS r2) as [u |]; [| reflexivity].
  cbn [fmap completion_fmap mbind completion_bind].
  destruct (decodeTokenInfos _ _ (S (S ind)) rest); reflexivity.
Qed.

Lemma decodeTokenInfos_wrappers borrower wrappers :
  forall ind, (ind mod 2 = 0)%nat ->
    decodeTokenInfos decode_balanceOf decode_UNDERLYING_ASSET_ADDRESS ind
      (respond <$> (wrappers ≫= fun wrapper =>
         [{| target := wrapper; callData := BalanceOf borrower |};
          {| target := wrapper; callData := UNDERLYING_ASSET_ADDRESS |}]))
    = Return (interleave
        ((fun wrapper => (balanceOf wrapper borrower, underlyingOf wrapper))
           <$> wrappers)).
Proof.
  induction wrappers as [| wrapper wrappers IH]; intros ind Heven; [reflexivity |].
  assert (Heven' : (S (S ind) mod 2 = 0)%nat).
  { revert Heven. rewrite !Nat.Div0.mod_divides. intros (c & ->).
    exists (S c). lia. }
  rewrite bind_cons, fmap_app, fmap_cons. cbn [app fmap list_fmap].
  change (list_fmap Call raw respond) with (fmap (M := list) respond).
  rewrite decodeTokenInfos_pair by exact Heven.
  rewrite decode_balance, decode_underlying, (IH _ Heven').
  reflexivity.
Qed.

Lemma fetchTokenInfos_interleave botInfo borrower :
  fetchTokenInfos aggregate decode_balanceOf decode_UNDERLYING_ASSET_ADDRESS
    botInfo borrower
  = Return (interleave
      ((fun wrapper => (balanceOf wrapper borrower, underlyingOf wrapper))
         <$> (mTokens botInfo ++ dTokens botInfo))).
Proof.
  unfold fetchTokenInfos, mTokenRequest. rewrite aggregate_in_order.
  cbn [await mbind completion_bind].
  rewrite <- bind_app.
  apply decodeTokenInfos_wrappers. reflexivity.
Qed.

(** X15.  Behind an order-preserving gateway the request list of a
    borrower decodes to one (balance, underlying) pair per wrapper,
    collateral wrappers first, and the decode loop attributes every pair
    to its wrapper and side: the collateral holdings are the collateral
    wrappers with a positive balance, the debt holdings the debt wrappers
    with a positive balance. *)
Theorem fetchTokenInfos_attribution (botInfo : BotInfo) (borrower : string) :
  let answer wrapper := (balanceOf wrapper borrower, underlyingOf wrapper) in
  fetchTokenInfos aggregate decode_balanceOf decode_UNDERLYING_ASSET_ADDRESS
    botInfo borrower
  = Return (interleave (answer <$> (mTokens botInfo ++ dTokens botInfo))) /\
  (tokenInfos ← fetchTokenInfos aggregate decode_balanceOf
                  decode_UNDERLYING_ASSET_ADDRESS botInfo borrower;
   resolvePosition (mTokens botInfo) tokenInfos)
  = Return
      {| mInfos := holdingsOf (answer <$> mTokens botInfo);
         dInfos := holdingsOf (answer <$> dTokens botInfo);
         tokensWithUnderlying :=
           underlyingIndexOf (mTokens botInfo)
             (answer <$> (mTokens botInfo ++ dTokens botInfo)) |}.
Proof.
  cbv zeta. split; [apply fetchTokenInfos_interleave |].
  rewrite fetchTokenInfos_interleave. cbn [mbind completion_bind].
  rewrite resolvePosition_interleave. f_equal. f_equal.
  - rewrite fmap_app, take_app_length'; [reflexivity |].
    rewrite length_fmap. reflexivity.
  - rewrite fmap_app, drop_app_length'; [reflexivity |].
    rewrite length_fmap. reflexivity.
Qed.

(** *** The health scan *)

Lemma decodeChunk_records pool users i chunk :
  forall ind,
    (forall j u, chunk !! j = Some u -> users !! (ind + j + i)%nat = Some u) ->
    decodeChunk decode_getUserAccountData pool users i ind
      (respond <$> ((fun user =>
          {| target := pool; callData := GetUserAccountData user |}) <$> chunk))
    = Return ((fun user =>
          {| pool := pool; user := user; healthFactor := healthOf pool user |})
        <$> chunk).
Proof.
  induction chunk as [| u chunk IH]; intros ind Hat; [reflexivity |].
  cbn [fmap list_fmap decodeChunk]. rewrite decode_health.
  cbn [mbind completion_bind].
  rewrite (Hat 0%nat u eq_refl) || (pose proof (Hat 0%nat u eq_refl) as H0;
    rewrite Nat.add_0_r in H0; rewrite H0).
  cbn [mbind completion_bind].
  change (list_fmap ?A ?B ?f) with (fmap (M := list) f).
  rewrite IH; [reflexivity |].
  intros j u' Hj. specialize (Hat (S j) u' Hj).
  replace (S ind + j + i)%nat with (ind + S j + i)%nat by lia. exact Hat.
Qed.

Lemma scanChunk_records pool users i acc :
  scanChunk aggregate decode_getUserAccountData pool users i acc
  = Return (acc ++ ((fun user =>
        {| pool := pool; user := user; healthFactor := healthOf pool user |})
      <$> take userChunkSize (drop i users))).
Proof.
  unfold scanChunk. cbv zeta.
  destruct (decide (0 < length _)%nat) as [Hne | Hempty].
  - rewrite aggregate_in_order. cbn [await mbind completion_bind].
    rewrite decodeChunk_records; [reflexivity |].
    intros j u Hj. apply lookup_take_Some in Hj as (Hj & _).
    rewrite lookup_drop in Hj. rewrite <- Hj. f_equal. lia.
  - rewrite length_fmap in Hempty.
    destruct (take userChunkSize (drop i users)); [| simpl in Hempty; lia].
    rewrite app_nil_r. reflexivity.
Qed.

Lemma scanPool_records pool users c :
  forall acc,
    foldl (fun acc i => allUsersHealthRes ← acc;
                        scanChunk aggregate decode_getUserAccountData
                          pool users i allUsersHealthRes)
      (Return acc) ((fun j => j * userChunkSize)%nat <$> seq 0 c)
    = Return (acc ++ ((fun user =>
          {| pool := pool; user := user; healthFactor := healthOf pool user |})
        <$> take (c * userChunkSize) users)).
Proof.
  induction c as [| c IH]; intros acc.
  - cbn. rewrite app_nil_r. reflexivity.
  - rewrite seq_S, fmap_app, foldl_app, IH. cbn [fmap list_fmap foldl Nat.add].
    cbn [mbind completion_bind]. rewrite scanChunk_records.
    rewrite <- app_assoc, <- fmap_app, take_take_drop.
    replace (S c * userChunkSize)%nat
      with (c * userChunkSize + userChunkSize)%nat by lia.
    reflexivity.
Qed.

Lemma chunkStarts_cover n : (n <= (n + (userChunkSize - 1)) / userChunkSize * userChunkSize)%nat.
Proof.
  unfold userChunkSize.
  pose proof (Nat.div_mod_eq (n + (50 - 1)) 50) as Hdm.
  pose proof (Nat.mod_upper_bound (n + (50 - 1)) 50 ltac:(lia)) as Hlt.
  lia.
Qed.

Lemma scanPool_all pool users acc :
  foldl (fun acc i => allUsersHealthRes ← acc;
                      scanChunk aggregate decode_getUserAccountData
                        pool users i allUsersHealthRes)
    (Return acc) (chunkStarts (length users))
  = Return (acc ++ ((fun user =>
        {| pool := pool; user := user; healthFactor := healthOf pool user |})
      <$> users)).
Proof.
  unfold chunkStarts. rewrite scanPool_records.
  rewrite take_ge by apply chunkStarts_cover. reflexivity.
Qed.

(** X16.  Behind an order-preserving gateway the health scan returns
    exactly one record per (pool, borrower) pair, pool by pool and within
    a pool in the order of the borrower list, each carrying the health
    factor of its own pair, whatever the number of borrowers: the chunks
    of 50 leave nobody out and attribute no result to a wrong borrower. *)
Theorem scanHealth_records (pools users : list string) :
  scanHealth aggregate decode_getUserAccountData pools users
  = Return (pools ≫= fun pool =>
      (fun user =>
         {| pool := pool; user := user; healthFactor := healthOf pool user |})
      <$> users).
Proof.
  unfold scanHealth.
  enough (Hgen : forall acc,
    foldl
      (fun acc pool =>
         foldl (fun acc i => allUsersHealthRes ← acc;
                             scanChunk aggregate decode_getUserAccountData
                               pool users i allUsersHealthRes)
           acc (chunkStarts (length users)))
      (Return acc) pools
    = Return (acc ++ (pools ≫= fun pool =>
        (fun user =>
           {| pool := pool; user := user; healthFactor := healthOf pool user |})
        <$> users))) by apply (Hgen []).
  induction pools as [| pool pools IH]; intros acc.
  - cbn. rewrite app_nil_r. reflexivity.
  - cbn [foldl]. rewrite scanPool_all, IH.
    rewrite bind_cons, app_assoc. reflexivity.
Qed.
End GatewayFacts.

Lemma fetchTokenInfos_attribution_witness :
  (tokenInfos ← fetchTokenInfos aggregateExample decodeUintExample
                  decodeAddressExample botInfoExample "0xBorrower";
   resolvePosition (mTokens botInfoExample) tokenInfos)
  = Return
      {| mInfos := [{| token := "0xM2U"; amount := 7 |}];
         dInfos := [{| token := "0xD1U"; amount := 7 |}];
         tokensWithUnderlying :=
           [{| underlyingToken := "0xm1u"; mtoken := "0xM1" |};
            {| underlyingToken := "0xm2u"; mtoken := "0xM2" |}] |}.
Proof.
  refine (eq_trans
    (proj2 (fetchTokenInfos_attribution aggregateExample decodeUintExample
              decodeAddressExample respondExample
              (fun wrapper _ => if string_eqb wrapper "0xM1" then 0 else 7)
              (fun wrapper => String.append wrapper "U")
              _ _ _ botInfoExample "0xBorrower")) _).
  - intros calls. reflexivity.
  - intros wrapper borrower. reflexivity.
  - intros wrapper. reflexivity.
  - vm_compute. reflexivity.
Defined.

Lemma scanHealth_records_witness :
  scanHealth aggregateExample decodeUintExample ["0xP1"; "0xP2"]
    (replicate 120 "0xUser")
  = Return (["0xP1"; "0xP2"] ≫= fun pool =>
      (fun user =>
         {| pool := pool; user := user; healthFactor := 5 * 10 ^ 17 |})
      <$> replicate 120 "0xUser").
Proof.
  apply (scanHealth_records aggregateExample decodeUintExample respondExample
           (fun _ _ => 5 * 10 ^ 17)).
  - intros calls. reflexivity.
  - intros pool borrower. reflexivity.
Defined.

(** ** Fetching the borrowers *)

Lemma fetchUsers_paging (all : list string)
    (query : nat -> nat -> option (option (list string))) :
  (forall skip, query first skip = Some (Some (take first (drop skip all)))) ->
  forall rounds skip,
    (skip <= length all)%nat ->
    (length all - skip < first * rounds)%nat ->
    fetchUsers query rounds skip (take skip all) = Some (Return all).
Proof.
  intros Hquery. induction rounds as [| rounds IH]; intros skip Hskip Hrounds.
  - lia.
  - cbn [fetchUsers]. rewrite Hquery. cbn [default from_option id].
    pose proof (length_take (drop skip all) first) as Hpage.
    pose proof (length_drop all skip) as Hrest.
    destruct (decide (length (take first (drop skip all)) < first)%nat)
      as [Hshort | Hfull].
    + f_equal. f_equal. rewrite (take_ge (drop skip all)) by lia.
      apply take_drop.
    + rewrite take_take_drop. apply IH; lia.
Qed.

(** X17.  When the indexing service pages through a finite list of
    borrowers, the fetch loop ends after at most length / 100 + 1 requests
    and returns exactly that list, in order. *)
Theorem fetchUsers_all (all : list string)
    (query : nat -> nat -> option (option (list string))) (rounds : nat) :
  (forall skip, query first skip = Some (Some (take first (drop skip all)))) ->
  (length all / first < rounds)%nat ->
  fetchUsers query rounds 0 [] = Some (Return all).
Proof.
  intros Hquery Hrounds.
  apply (fetchUsers_paging all query Hquery rounds 0%nat); [lia |].
  rewrite Nat.sub_0_r.
  pose proof (Nat.div_mod_eq (length all) first) as Hdm.
  pose proof (Nat.mod_upper_bound (length all) first ltac:(discriminate)) as Hlt.
  nia.
Qed.

Lemma fetchUsers_all_witness :
  fetchUsers queryExample 3 0 [] = Some (Return (replicate 250 "0xUser")).
Proof.
  apply (fetchUsers_all (replicate 250 "0xUser") queryExample 3).
  - intros skip. reflexivity.
  - vm_compute. lia.
Defined.

Lemma fetchUsers_after_full_pages
    (query : nat -> nat -> option (option (list string))) (k : nat) :
  (forall j, (j < k)%nat ->
     exists page, query first (j * first)%nat = Some (Some page) /\
                  length page = first) ->
  query first (k * first)%nat = None ->
  forall d j rounds allUsers,
    (j + d = k)%nat -> (d < rounds)%nat ->
    fetchUsers query rounds (j * first) allUsers
      = Some (Throw (CallException "apolloFetcher")).
Proof.
  intros Hfull Hfail.
  induction d as [| d IH]; intros j rounds allUsers Hj Hrounds;
    (destruct rounds as [| rounds]; [lia |]); cbn [fetchUsers].
  - replace j with k by lia. rewrite Hfail. reflexivity.
  - destruct (Hfull j ltac:(lia)) as (page & Hpage & Hlen).
    rewrite Hpage. cbn [default from_option id]. rewrite Hlen.
    rewrite decide_False by lia.
    replace (j * first + first)%nat with (S j * first)%nat by lia.
    apply IH; lia.
Qed.

(** X18.  When a request to the indexing service fails after any number
    of full pages, the fetch ends with that error and the borrowers
    fetched so far are not used. *)
Theorem fetchUsers_failure_discards
    (query : nat -> nat -> option (option (list string))) (k rounds : nat) :
  (forall j, (j < k)%nat ->
     exists page, query first (j * first)%nat = Some (Some page) /\
                  length page = first) ->
  query first (k * first)%nat = None ->
  (k < rounds)%nat ->
  fetchUsers query rounds 0 [] = Some (Throw (CallException "apolloFetcher")).
Proof.
  intros Hfull Hfail Hrounds.
  apply (fetchUsers_after_full_pages query k Hfull Hfail k 0%nat); lia.
Qed.

Lemma fetchUsers_failure_discards_witness :
  fetchUsers
    (fun first skip =>
       if decide (skip < 200)%nat then Some (Some (replicate first "0xUser"))
       else None)
    5 0 []
  = Some (Throw (CallException "apolloFetcher")).
Proof.
  apply (fetchUsers_failure_discards _ 2 5).
  - intros j Hj. exists (replicate first "0xUser").
    split; [| apply length_replicate].
    rewrite decide_True by (unfold first; lia). reflexivity.
  - reflexivity.
  - lia.
Defined.

(** X19.  The fetch loop ends only on a page shorter than 100: against a
    service whose every page is full it never ends, whatever the number
    of requests allowed. *)
Theorem fetchUsers_never_ends_on_full_pages
    (query : nat -> nat -> option (option (list string))) :
  (forall skip, exists page,
     query first skip = Some (Some page) /\ length page = first) ->
  forall rounds skip allUsers, fetchUsers query rounds skip allUsers = None.
Proof.
  intros Hfull. induction rounds as [| rounds IH]; intros skip allUsers.
  - reflexivity.
  - cbn [fetchUsers]. destruct (Hfull skip) as (page & Hpage & Hlen).
    rewrite Hpage. cbn [default from_option id]. rewrite Hlen.
    rewrite decide_False by lia. apply IH.
Qed.

Lemma fetchUsers_never_ends_on_full_pages_witness :
  fetchUsers (fun first _ => Some (Some (replicate first "0xUser"))) 40 0 [] = None.
Proof.
  apply fetchUsers_never_ends_on_full_pages.
  intros skip. exists (replicate first "0xUser").
  split; [reflexivity | apply length_replicate].
Defined.

(** ** The liquidation loop *)

Lemma mapM_stops {A B : Type} (f : A -> completion B)
    (before after : list A) (x : A) (e : exn) :
  Forall (fun a => exists b, f a = Return b) before ->
  f x = Throw e ->
  mapM f (before ++ x :: after) = Throw e.
Proof.
  induction 1 as [| a before (b & Hb) _ IH]; intros Hx; cbn [app mapM].
  - rewrite Hx. reflexivity.
  - rewrite Hb. cbn [mbind completion_bind]. rewrite (IH Hx). reflexivity.
Qed.

(** X20.  The borrowers of the liquidatable tier are processed one after
    the other and nothing catches an error of the per-borrower step: the
    first borrower whose step throws (a failed batched call, a failed
    liquidity read, a pool without bot configuration) ends the whole loop
    with that error, and the borrowers after it are not attempted. *)
Theorem liquidateUnhealthy_index_stops {raw : Type}
    (aggregate : list Call -> option (list raw))
    (decode_balanceOf : raw -> completion Z)
    (decode_UNDERLYING_ASSET_ADDRESS : raw -> completion string)
    (chain : Chain) (bots : gmap string BotInfo)
    (allUsersHealthRes before after : list HealthRecord)
    (failing : HealthRecord) (e : exn) :
  unhealthyUsers allUsersHealthRes = before ++ failing :: after ->
  Forall (fun u => exists outcome,
            processBorrower_index aggregate decode_balanceOf
              decode_UNDERLYING_ASSET_ADDRESS chain bots u = Return outcome)
    before ->
  processBorrower_index aggregate decode_balanceOf
    decode_UNDERLYING_ASSET_ADDRESS chain bots failing = Throw e ->
  liquidateUnhealthy_index aggregate decode_balanceOf
    decode_UNDERLYING_ASSET_ADDRESS chain bots allUsersHealthRes = Throw e.
Proof.
  intros Hsplit Hbefore Hfail. unfold liquidateUnhealthy_index.
  rewrite Hsplit. apply mapM_stops; assumption.
Qed.

Lemma liquidateUnhealthy_index_stops_witness :
  liquidateUnhealthy_index aggregateExample decodeUintExample
    decodeAddressExample chainNoLiquidity
    ({[ "0xP1" := botInfoExample ]} : gmap string BotInfo)
    [ {| pool := "0xP1"; user := "0xA"; healthFactor := 5 * 10 ^ 17 |};
      {| pool := "0xP2"; user := "0xB"; healthFactor := 5 * 10 ^ 17 |};
      {| pool := "0xP1"; user := "0xC"; healthFactor := 5 * 10 ^ 17 |} ]
  = Throw (TypeError "botInfo.mTokens").
Proof.
  apply (liquidateUnhealthy_index_stops aggregateExample decodeUintExample
           decodeAddressExample chainNoLiquidity _ _
           [ {| pool := "0xP1"; user := "0xA"; healthFactor := 5 * 10 ^ 17 |} ]
           [ {| pool := "0xP1"; user := "0xC"; healthFactor := 5 * 10 ^ 17 |} ]
           {| pool := "0xP2"; user := "0xB"; healthFactor := 5 * 10 ^ 17 |}).
  - reflexivity.
  - constructor; [| constructor]. eexists. vm_compute. reflexivity.
  - reflexivity.
Defined.

(** ** The close-factor variant, step by step *)

Lemma candidateOf_not_enabled chain poolAddress mInfo :
  (forall data,
     pool_getReserveData chain poolAddress (token mInfo) = Some data ->
     extractUsageAsCollateralEnabled data = false) ->
  candidateOf chain poolAddress mInfo = None.
Proof.
  intros Hoff. unfold candidateOf, evaluateCollateral.
  rewrite getReserveConfiguration_value. cbn [mbind completion_bind].
  destruct (pool_getReserveData chain poolAddress (token mInfo)) as [data |];
    cbn [rc_usageAsCollateralEnabled negb]; [| reflexivity].
  rewrite (Hoff data eq_refl). reflexivity.
Qed.

Lemma candidates_none_enabled chain poolAddress (holdings : list Holding) :
  Forall (fun mInfo => forall data,
            pool_getReserveData chain poolAddress (token mInfo) = Some data ->
            extractUsageAsCollateralEnabled data = false)
    holdings ->
  omap (candidateOf chain poolAddress) holdings = [].
Proof.
  induction 1 as [| mInfo rest Hhead _ IH]; [reflexivity |].
  cbn [omap list_omap]. rewrite (candidateOf_not_enabled _ _ _ Hhead).
  exact IH.
Qed.

(** X21.  When none of the borrower's collateral holdings is enabled as
    collateral (the flag is off or the reserve read fails), the selector
    returns null and the close-factor variant skips the borrower before
    it reads any liquidity or asks for any quote. *)
Theorem liquidate_no_eligible_collateral
    (chain : Chain) (venues : Venues) (contracts : Contracts)
    (isAddress : string -> bool)
    (unhealthyUser : HealthRecord) (st : Position)
    (m0 d0 : Holding) (ms ds : list Holding) :
  mInfos st = m0 :: ms ->
  dInfos st = d0 :: ds ->
  Forall (fun mInfo => forall data,
            pool_getReserveData chain (pool unhealthyUser) (token mInfo) = Some data ->
            extractUsageAsCollateralEnabled data = false)
    (mInfos st) ->
  selectBestCollateralAsset chain (pool unhealthyUser) (mInfos st) = Return None /\
  liquidate chain venues contracts isAddress unhealthyUser st
    = Return NoSuitableCollateral.
Proof.
  intros Hm Hd Hoff.
  assert (Hnone : selectBestCollateralAsset chain (pool unhealthyUser) (mInfos st)
                  = Return None).
  { unfold selectBestCollateralAsset. rewrite collateralCandidates_value.
    cbn [mbind completion_bind].
    rewrite (candidates_none_enabled _ _ _ Hoff). reflexivity. }
  split; [exact Hnone |].
  unfold liquidate. rewrite Hnone, Hm, Hd. reflexivity.
Qed.

Lemma liquidate_no_eligible_collateral_witness :
  liquidate chainNotCollateral venuesAgroOnly contractsExample
    isSingleCaseAddress borrowerExample positionExample
    = Return NoSuitableCollateral.
Proof.
  refine (proj2 (liquidate_no_eligible_collateral
                   chainNotCollateral venuesAgroOnly contractsExample
                   isSingleCaseAddress
                   borrowerExample positionExample
                   {| token := "0xC"; amount := 10 |}
                   {| token := "0xD"; amount := 1000 |} [] [] _ _ _)).
  - reflexivity.
  - reflexivity.
  - constructor; [| constructor]. intros data [= <-]. vm_compute. reflexivity.
Defined.

(** X22.  The close-factor variant never assembles liquidation
    parameters.  Whatever the chain, the venues and the position, its
    per-borrower step ends in one of five ways: the borrower is skipped
    (no collateral or debt, no suitable collateral, no wrapper for the
    debt asset), or the step throws, at the unguarded liquidity read or
    at the call of [BigNumber.min] that follows it. *)
Theorem liquidate_never_assembles
    (chain : Chain) (venues : Venues) (contracts : Contracts)
    (isAddress : string -> bool)
    (unhealthyUser : HealthRecord) (st : Position) :
  let outcome := liquidate chain venues contracts isAddress unhealthyUser st in
  outcome = Return NoCollateralOrDebt \/
  outcome = Return NoSuitableCollateral \/
  outcome = Return Unexpected \/
  outcome = Throw (CallException "balanceOf") \/
  outcome = Throw (TypeError "BigNumber.min is not a function").
Proof.
  cbv zeta. unfold liquidate.
  destruct (mInfos st) as [| m0 ms] eqn:Hm; [auto |].
  destruct (dInfos st) as [| d0 ds] eqn:Hd; [auto |].
  destruct (selectBestCollateralAsset_returns chain (pool unhealthyUser) (m0 :: ms))
    as (bestCollateral & Hbest).
  rewrite Hbest. cbn [mbind completion_bind].
  destruct bestCollateral as [best |]; [| auto].
  destruct (findDebtMToken (token d0) (tokensWithUnderlying st))
    as [debtMToken |]; [| auto].
  destruct (erc20_balanceOf chain (token d0) (mtoken debtMToken)) as [a |];
    cbn [await mbind completion_bind].
  - rewrite sizeDebtToCover_throws. cbn [mbind completion_bind]. auto 6.
  - auto 6.
Qed.
